(** * gwork: Drive audit — pagination, domain classification, audit orchestration

    A shallow embedding of the Go packages [internal/drive], [internal/audit],
    [internal/reporter], [pkg/exitcode] and of [main], with the properties of
    the specification stated and proved over it.

    Go strings are byte sequences: they are embedded as [string] (a list of
    8-bit [ascii]).  Go's [int] is a 64-bit two's complement integer: it is
    embedded as [Z] with the wrap-around written out. *)

From Stdlib Require Import ZArith List String Ascii Bool Lia.
From Stdlib Require Import Sorting.Sorted Sorting.Permutation.
Import ListNotations.

Local Open Scope string_scope.
Local Open Scope list_scope.
Local Open Scope Z_scope.

(** ** Go primitives used by the program *)

Module Go.

(** [int] arithmetic: 64-bit two's complement. *)
Definition MinInt : Z := - 2 ^ 63.
Definition MaxInt : Z := 2 ^ 63 - 1.
Definition wrap_int (z : Z) : Z := (z + 2 ^ 63) mod 2 ^ 64 - 2 ^ 63.

(** [len(s)] of a slice. *)
Definition len {A : Type} (s : list A) : Z := Z.of_nat (List.length s).

(** [len(s)] of a string (number of bytes). *)
Definition strlen (s : string) : Z := Z.of_nat (String.length s).

(** [s[lo:]] on a string.  Go panics when [lo] is out of [0..len(s)]; the
    only use in the program is shown to stay in range
    ([LastIndex_range] below), so the clamped total function is used. *)
Fixpoint drop_bytes (n : nat) (s : string) : string :=
  match n, s with
  | O, _ => s
  | S _, EmptyString => EmptyString
  | S n', String _ s' => drop_bytes n' s'
  end.

Definition slice_from (s : string) (lo : Z) : string :=
  drop_bytes (Z.to_nat lo) s.

(** [strings.LastIndex(s, substr)]: the index of the last instance of
    [substr] in [s], or -1 if [substr] is not present in [s]. *)
Fixpoint LastIndex_at (i : Z) (s substr : string) : Z :=
  match s with
  | EmptyString => if prefix substr s then i else -1
  | String _ s' =>
      let r := LastIndex_at (i + 1) s' substr in
      if 0 <=? r then r
      else if prefix substr s then i else -1
  end.

Definition LastIndex (s substr : string) : Z := LastIndex_at 0 s substr.

(** [a < b] on strings: bytewise lexicographic. *)
Definition str_lt (a b : string) : bool := String.ltb a b.

(** [a != b] on strings. *)
Definition str_ne (a b : string) : bool := negb (String.eqb a b).

(** Errors.  [fmt.Errorf("<context>: %w", err)] wraps a cause under a
    context string; [ctx.Err()] is one of the two context errors; anything
    else is an opaque error carrying its message. *)
Inductive error : Type :=
| Canceled
| DeadlineExceeded
| ErrorString (msg : string)
| Wrapped (context : string) (cause : error).

End Go.

Import Go.

(** ** Package drive: types *)

Module drive.

(** [FileInfo] represents relevant file metadata. *)
Record FileInfo : Type := mkFileInfo {
  ID : string;
  Name : string;
  MimeType : string;
  OwnerEmail : string;
  CreatedTime : string;
  ModifiedTime : string;
  Size : Z
}.

(** [Permission] represents a file permission. *)
Record Permission : Type := mkPermission {
  PermID : string;
  Type_ : string;
  Role : string;
  EmailAddress : string;
  Domain : string;
  DisplayName : string
}.

(** [ExtractDomain] extracts the domain part from an email address. *)
Definition ExtractDomain (email : string) : string :=
  let idx := LastIndex email "@" in
  if idx <? 0 then ""
  else slice_from email (idx + 1).

(** [Client] wraps the Drive API client; the [api] field is the ambient
    [DriveAPI] instance of the sections below. *)
Record Client : Type := mkClient {
  domain : string;
  pageSize : Z;
  includeSharedDrives : bool
}.

(** [IsExternalShare] checks if a permission is external to the domain. *)
Definition IsExternalShare (c : Client) (perm : Permission) : bool :=
  if String.eqb (Type_ perm) "anyone" then true
  else if String.eqb (Type_ perm) "domain" then
    str_ne (Domain perm) (domain c)
  else if String.eqb (Type_ perm) "user" || String.eqb (Type_ perm) "group" then
    if String.eqb (EmailAddress perm) "" then false
    else
      let emailDomain := ExtractDomain (EmailAddress perm) in
      str_ne emailDomain (domain c)
  else false.

End drive.

(** ** The remote API ([google.golang.org/api/drive/v3] entries and the
    [DriveAPI] interface of [internal/drive/interfaces.go]) *)

Module v3.

Record User : Type := mkUser {
  UserEmailAddress : string
}.

Record File : Type := mkFile {
  FileId : string;
  FileName : string;
  FileMimeType : string;
  FileOwners : list User;
  FileCreatedTime : string;
  FileModifiedTime : string;
  FileSize : Z
}.

Record Permission : Type := mkPermission {
  PermissionId : string;
  PermissionType : string;
  PermissionRole : string;
  PermissionEmailAddress : string;
  PermissionDomain : string;
  PermissionDisplayName : string
}.

End v3.

Module api.

(** [ListFilesOptions] contains options for listing files. *)
Record ListFilesOptions : Type := mkListFilesOptions {
  Corpora : string;
  PageSize : Z;
  FilesPageToken : string;
  FilesFields : string;
  FilesSupportsAllDrives : bool;
  IncludeItemsFromAllDrives : bool
}.

(** [ListFilesResult] contains the result of listing files. *)
Record ListFilesResult : Type := mkListFilesResult {
  Files : list v3.File;
  FilesNextPageToken : string
}.

(** [ListPermissionsOptions] contains options for listing permissions. *)
Record ListPermissionsOptions : Type := mkListPermissionsOptions {
  PermsFields : string;
  PermsPageToken : string;
  PermsSupportsAllDrives : bool
}.

(** [ListPermissionsResult] contains the result of listing permissions. *)
Record ListPermissionsResult : Type := mkListPermissionsResult {
  Permissions : list v3.Permission;
  PermsNextPageToken : string
}.

(** The [DriveAPI] interface.  An implementation may keep state of its own
    (a server, a scripted double): a call is a transition of the world [W]
    that yields either a result page or an error. *)
Class DriveAPI (W : Type) : Type := {
  ListFiles : ListFilesOptions -> W -> (ListFilesResult + error) * W;
  ListPermissions :
    string -> ListPermissionsOptions -> W -> (ListPermissionsResult + error) * W
}.

(** [context.Context], as far as the program uses it: the non-blocking
    [select] on [ctx.Done()] followed by [ctx.Err()].  [None] is the
    [default:] branch (not cancelled); [Some e] is the cancellation error. *)
Class Context (W : Type) : Type := {
  ctx_poll : W -> option error * W
}.

End api.

Import api.

(** ** Package drive: the pagination aggregators *)

Module client.

Import drive.

Section WithAPI.

Context {W : Type} {API : DriveAPI W} {CTX : api.Context W}.

(** The body of the [for _, file := range result.Files] loop. *)
Definition fileInfoOf (file : v3.File) : FileInfo :=
  let ownerEmail :=
    match v3.FileOwners file with
    | [] => ""
    | o :: _ => v3.UserEmailAddress o
    end in
  {| ID := v3.FileId file;
     Name := v3.FileName file;
     MimeType := v3.FileMimeType file;
     OwnerEmail := ownerEmail;
     CreatedTime := v3.FileCreatedTime file;
     ModifiedTime := v3.FileModifiedTime file;
     Size := v3.FileSize file |}.

Definition appendFiles (allFiles : list FileInfo) (files : list v3.File)
  : list FileInfo :=
  fold_left (fun acc file => acc ++ [fileInfoOf file]) files allFiles.

Definition listFilesOptions (c : Client) (pageToken : string)
  : ListFilesOptions :=
  {| Corpora := "domain";
     PageSize := pageSize c;
     FilesPageToken := pageToken;
     FilesFields :=
       "nextPageToken, files(id, name, mimeType, owners, createdTime, modifiedTime, size)";
     FilesSupportsAllDrives := includeSharedDrives c;
     IncludeItemsFromAllDrives := includeSharedDrives c |}.

(** The [for { ... }] loop of [ListAllFiles], entered with the current
    accumulator and page token.  The loop has no bound of its own: [fuel]
    bounds the number of iterations, and [None] means the bound was reached
    before the loop returned. *)
Fixpoint ListAllFiles_loop (fuel : nat) (c : Client)
  (allFiles : list FileInfo) (pageToken : string) (w : W)
  : option ((list FileInfo * option error) * W) :=
  match fuel with
  | O => None
  | S fuel' =>
      match ctx_poll w with
      | (Some e, w1) => Some ((allFiles, Some e), w1)
      | (None, w1) =>
          match ListFiles (listFilesOptions c pageToken) w1 with
          | (inr err, w2) =>
              Some (([], Some (Wrapped "failed to list files" err)), w2)
          | (inl result, w2) =>
              let allFiles' := appendFiles allFiles (Files result) in
              let pageToken' := FilesNextPageToken result in
              if String.eqb pageToken' "" then Some ((allFiles', None), w2)
              else ListAllFiles_loop fuel' c allFiles' pageToken' w2
          end
      end
  end.

(** [ListAllFiles] retrieves all files in the domain. *)
Definition ListAllFiles (fuel : nat) (c : Client) (w : W)
  : option ((list FileInfo * option error) * W) :=
  ListAllFiles_loop fuel c [] "" w.

(** The body of the [for _, perm := range result.Permissions] loop. *)
Definition permissionOf (perm : v3.Permission) : Permission :=
  {| PermID := v3.PermissionId perm;
     Type_ := v3.PermissionType perm;
     Role := v3.PermissionRole perm;
     EmailAddress := v3.PermissionEmailAddress perm;
     Domain := v3.PermissionDomain perm;
     DisplayName := v3.PermissionDisplayName perm |}.

Definition appendPerms (allPerms : list Permission)
  (perms : list v3.Permission) : list Permission :=
  fold_left (fun acc perm => acc ++ [permissionOf perm]) perms allPerms.

Definition listPermissionsOptions (c : Client) (pageToken : string)
  : ListPermissionsOptions :=
  {| PermsFields :=
       "nextPageToken, permissions(id, type, role, emailAddress, domain, displayName)";
     PermsPageToken := pageToken;
     PermsSupportsAllDrives := includeSharedDrives c |}.

Fixpoint GetFilePermissions_loop (fuel : nat) (c : Client) (fileID : string)
  (allPerms : list Permission) (pageToken : string) (w : W)
  : option ((list Permission * option error) * W) :=
  match fuel with
  | O => None
  | S fuel' =>
      match ctx_poll w with
      | (Some e, w1) => Some ((allPerms, Some e), w1)
      | (None, w1) =>
          match ListPermissions fileID (listPermissionsOptions c pageToken) w1 with
          | (inr err, w2) =>
              Some (([],
                     Some (Wrapped ("failed to list permissions for file " ++ fileID)%string err)),
                    w2)
          | (inl result, w2) =>
              let allPerms' := appendPerms allPerms (Permissions result) in
              let pageToken' := PermsNextPageToken result in
              if String.eqb pageToken' "" then Some ((allPerms', None), w2)
              else GetFilePermissions_loop fuel' c fileID allPerms' pageToken' w2
          end
      end
  end.

(** [GetFilePermissions] retrieves all permissions for a file. *)
Definition GetFilePermissions (fuel : nat) (c : Client) (fileID : string) (w : W)
  : option ((list Permission * option error) * W) :=
  GetFilePermissions_loop fuel c fileID [] "" w.

End WithAPI.

End client.

(** ** [time.Time], as far as the program uses it *)

Module time.

(** An instant: seconds and nanoseconds since January 1, year 1, 00:00 UTC.
    The zero value of the Go struct is that instant. *)
Record Time : Type := mkTime {
  sec : Z;
  nsec : Z
}.

Definition zero : Time := {| sec := 0; nsec := 0 |}.

Definition IsZero (t : Time) : bool := (sec t =? 0) && (nsec t =? 0).

End time.

(** ** Package audit *)

Module audit.

Import drive client.

(** [FileRecord] represents a file in the files-by-owner report. *)
Record FileRecord : Type := mkFileRecord {
  fr_OwnerEmail : string;
  fr_FileID : string;
  fr_FileName : string;
  fr_FileType : string;
  fr_CreatedTime : time.Time;
  fr_ModifiedTime : time.Time;
  fr_SizeBytes : Z
}.

(** [ExternalShareRecord] represents an external sharing entry. *)
Record ExternalShareRecord : Type := mkExternalShareRecord {
  OwnerEmail : string;
  FileID : string;
  FileName : string;
  SharedWithEmail : string;
  SharedWithDomain : string;
  PermissionType : string;
  PermissionRole : string;
  SharedDate : time.Time
}.

(** [AuditResult] contains the results of an audit operation. *)
Record AuditResult : Type := mkAuditResult {
  TotalFiles : Z;
  TotalExternalShares : Z;
  FilesProcessed : Z;
  Errors : list error;
  FileRecords : list FileRecord;
  ExternalShares : list ExternalShareRecord
}.

Definition set_TotalExternalShares (v : Z) (r : AuditResult) : AuditResult :=
  {| TotalFiles := TotalFiles r;
     TotalExternalShares := v;
     FilesProcessed := FilesProcessed r;
     Errors := Errors r;
     FileRecords := FileRecords r;
     ExternalShares := ExternalShares r |}.

Definition set_FilesProcessed (v : Z) (r : AuditResult) : AuditResult :=
  {| TotalFiles := TotalFiles r;
     TotalExternalShares := TotalExternalShares r;
     FilesProcessed := v;
     Errors := Errors r;
     FileRecords := FileRecords r;
     ExternalShares := ExternalShares r |}.

Definition set_Errors (v : list error) (r : AuditResult) : AuditResult :=
  {| TotalFiles := TotalFiles r;
     TotalExternalShares := TotalExternalShares r;
     FilesProcessed := FilesProcessed r;
     Errors := v;
     FileRecords := FileRecords r;
     ExternalShares := ExternalShares r |}.

Definition set_ExternalShares (v : list ExternalShareRecord) (r : AuditResult)
  : AuditResult :=
  {| TotalFiles := TotalFiles r;
     TotalExternalShares := TotalExternalShares r;
     FilesProcessed := FilesProcessed r;
     Errors := Errors r;
     FileRecords := FileRecords r;
     ExternalShares := v |}.

(** [Auditor] orchestrates audit operations.  The [driveClient] field is the
    production [drive.Client] that [NewAuditor] installs. *)
Record Auditor : Type := mkAuditor {
  driveClient : Client
}.

(** [permissionToRecord] converts a file and permission to an
    [ExternalShareRecord]. *)
Definition permissionToRecord (file : FileInfo) (perm : Permission)
  : ExternalShareRecord :=
  let sharedWithDomain := Domain perm in
  let sharedWithDomain :=
    if String.eqb sharedWithDomain "" && str_ne (EmailAddress perm) ""
    then ExtractDomain (EmailAddress perm)
    else sharedWithDomain in
  {| OwnerEmail := drive.OwnerEmail file;
     FileID := ID file;
     FileName := Name file;
     SharedWithEmail := EmailAddress perm;
     SharedWithDomain := sharedWithDomain;
     PermissionType := Type_ perm;
     PermissionRole := Role perm;
     SharedDate := time.zero |}.

(** The [for _, perm := range perms] loop of [AuditExternalSharing]. *)
Definition appendShares (c : Client) (file : FileInfo)
  (shares : list ExternalShareRecord) (perms : list Permission)
  : list ExternalShareRecord :=
  fold_left
    (fun acc perm =>
       if IsExternalShare c perm then acc ++ [permissionToRecord file perm]
       else acc)
    perms shares.

Section WithAPI.

Context {W : Type} {API : DriveAPI W} {CTX : api.Context W}.

(** The [for _, file := range files] loop of [AuditExternalSharing].  The
    error component is [Some] when the loop left the function through the
    cancellation [return], [None] when the range was exhausted. *)
Fixpoint sharing_loop (fuel : nat) (c : Client) (files : list FileInfo)
  (result : AuditResult) (w : W)
  : option ((AuditResult * option error) * W) :=
  match files with
  | [] => Some ((result, None), w)
  | file :: rest =>
      match ctx_poll w with
      | (Some e, w1) => Some ((result, Some e), w1)
      | (None, w1) =>
          match GetFilePermissions fuel c (ID file) w1 with
          | None => None
          | Some ((_, Some err), w2) =>
              let result' :=
                set_Errors
                  (Errors result ++ [Wrapped ("file " ++ ID file)%string err])
                  result in
              sharing_loop fuel c rest result' w2
          | Some ((perms, None), w2) =>
              let result' :=
                set_FilesProcessed (wrap_int (FilesProcessed result + 1)) result in
              let result'' :=
                set_ExternalShares
                  (appendShares c file (ExternalShares result') perms) result' in
              sharing_loop fuel c rest result'' w2
          end
      end
  end.

(** [AuditExternalSharing] performs an external sharing audit.  The first
    component is the [*AuditResult] ([None] for [nil]). *)
Definition AuditExternalSharing (fuel : nat) (a : Auditor) (w : W)
  : option ((option AuditResult * option error) * W) :=
  match ListAllFiles fuel (driveClient a) w with
  | None => None
  | Some ((_, Some err), w1) =>
      Some ((None, Some (Wrapped "failed to list files" err)), w1)
  | Some ((files, None), w1) =>
      let result :=
        {| TotalFiles := len files;
           TotalExternalShares := 0;
           FilesProcessed := 0;
           Errors := [];
           FileRecords := [];
           ExternalShares := [] |} in
      match sharing_loop fuel (driveClient a) files result w1 with
      | None => None
      | Some ((result', Some e), w2) => Some ((Some result', Some e), w2)
      | Some ((result', None), w2) =>
          Some ((Some (set_TotalExternalShares (len (ExternalShares result')) result'),
                 None), w2)
      end
  end.

End WithAPI.

End audit.

(** ** A scripted double of the remote API and of the context

    The test suites drive the client through doubles of [DriveAPI]
    ([NewClientWithAPI]).  This one answers each listing call with the next
    scripted response, whatever the request, and records every request, so
    that the requests the client makes are themselves observable. *)

Module mock.

Inductive Event : Type :=
| Polled
| FilesCalled (opts : ListFilesOptions)
| PermsCalled (fileID : string) (opts : ListPermissionsOptions).

Record World : Type := mkWorld {
  polls_left : option nat;
  cancel_err : error;
  files_script : list (ListFilesResult + error);
  perms_script : list (ListPermissionsResult + error);
  log : list Event
}.

Definition unexpected : error := ErrorString "mock: unexpected call".

(** The context is cancelled, with [cancel_err], once [polls_left] polls
    have answered; [None] is a context that is never cancelled. *)
Definition poll (w : World) : option error * World :=
  let logged := log w ++ [Polled] in
  match polls_left w with
  | None =>
      (None, mkWorld None (cancel_err w) (files_script w) (perms_script w) logged)
  | Some O =>
      (Some (cancel_err w),
       mkWorld (Some O) (cancel_err w) (files_script w) (perms_script w) logged)
  | Some (S n) =>
      (None,
       mkWorld (Some n) (cancel_err w) (files_script w) (perms_script w) logged)
  end.

Definition listFiles (opts : ListFilesOptions) (w : World)
  : (ListFilesResult + error) * World :=
  let logged := log w ++ [FilesCalled opts] in
  match files_script w with
  | [] =>
      (inr unexpected,
       mkWorld (polls_left w) (cancel_err w) [] (perms_script w) logged)
  | r :: rest =>
      (r, mkWorld (polls_left w) (cancel_err w) rest (perms_script w) logged)
  end.

Definition listPermissions (fileID : string) (opts : ListPermissionsOptions)
  (w : World) : (ListPermissionsResult + error) * World :=
  let logged := log w ++ [PermsCalled fileID opts] in
  match perms_script w with
  | [] =>
      (inr unexpected,
       mkWorld (polls_left w) (cancel_err w) (files_script w) [] logged)
  | r :: rest =>
      (r, mkWorld (polls_left w) (cancel_err w) (files_script w) rest logged)
  end.

#[global] Instance mockAPI : DriveAPI World := {
  ListFiles := listFiles;
  ListPermissions := listPermissions
}.

#[global] Instance mockContext : api.Context World := {
  ctx_poll := poll
}.

(** Every listing request of a log comes directly after a poll of the
    context, and a request for the first page of a file's permissions (empty
    page token) after [need] polls in a row.  [polls] counts the polls that
    directly precede the log. *)
Fixpoint checked (need polls : nat) (l : list Event) : bool :=
  match l with
  | [] => true
  | Polled :: l' => checked need (S polls) l'
  | FilesCalled _ :: l' => (1 <=? polls)%nat && checked need 0 l'
  | PermsCalled _ opts :: l' =>
      ((if String.eqb (PermsPageToken opts) "" then need else 1%nat) <=? polls)%nat
      && checked need 0 l'
  end.

End mock.

(** ** Package reporter *)

Module reporter.

Import audit.

(** The output file and the [csv.Writer] on it: the paths created, the
    rows accepted by [writer.Write], whether the file was closed.  Each I/O
    operation consumes the next entry of [faults]: [Some e] makes the
    operation fail with [e] and change nothing; [None], or an exhausted
    list, lets it succeed. *)
Record Sink : Type := mkSink {
  faults : list (option error);
  created : list string;
  rows : list (list string);
  closed : bool
}.

Definition next_fault (s : Sink) : option error * list (option error) :=
  match faults s with
  | [] => (None, [])
  | f :: rest => (f, rest)
  end.

(** [os.Create(path)]. *)
Definition Create (path : string) (s : Sink) : option error * Sink :=
  match next_fault s with
  | (Some e, rest) => (Some e, mkSink rest (created s) (rows s) (closed s))
  | (None, rest) => (None, mkSink rest (created s ++ [path]) (rows s) (closed s))
  end.

(** [writer.Write(row)]. *)
Definition Write (row : list string) (s : Sink) : option error * Sink :=
  match next_fault s with
  | (Some e, rest) => (Some e, mkSink rest (created s) (rows s) (closed s))
  | (None, rest) => (None, mkSink rest (created s) (rows s ++ [row]) (closed s))
  end.

(** [writer.Flush()] followed by [writer.Error()]. *)
Definition Flush (s : Sink) : option error * Sink :=
  match next_fault s with
  | (e, rest) => (e, mkSink rest (created s) (rows s) (closed s))
  end.

(** [file.Close()]. *)
Definition Close (s : Sink) : option error * Sink :=
  match next_fault s with
  | (Some e, rest) => (Some e, mkSink rest (created s) (rows s) (closed s))
  | (None, rest) => (None, mkSink rest (created s) (rows s) true)
  end.

(** The deferred closure of both writers: close the file, and report the
    failure of the close when nothing failed before. *)
Definition deferred_close (res : option error * Sink) : option error * Sink :=
  let '(err, s) := res in
  match Close s with
  | (Some cerr, s') =>
      (match err with
       | None => Some (Wrapped "failed to close file" cerr)
       | Some _ => err
       end, s')
  | (None, s') => (err, s')
  end.

(** [CSVReporter] generates CSV reports. *)
Record CSVReporter : Type := mkCSVReporter {
  outputDir : string
}.

(** The [less] closure handed to [sort.Slice] by [WriteFilesByOwner]. *)
Definition lessFileRecord (a b : FileRecord) : bool :=
  if str_ne (fr_OwnerEmail a) (fr_OwnerEmail b)
  then str_lt (fr_OwnerEmail a) (fr_OwnerEmail b)
  else str_lt (fr_FileName a) (fr_FileName b).

(** The [less] closure handed to [sort.Slice] by [WriteExternalSharing]. *)
Definition lessShareRecord (a b : ExternalShareRecord) : bool :=
  if str_ne (OwnerEmail a) (OwnerEmail b)
  then str_lt (OwnerEmail a) (OwnerEmail b)
  else str_lt (FileName a) (FileName b).

Definition filesHeader : list string :=
  ["owner_email"; "file_id"; "file_name"; "file_type";
   "created_time"; "modified_time"; "size_bytes"].

Definition sharingHeader : list string :=
  ["owner_email"; "file_id"; "file_name"; "shared_with_email";
   "shared_with_domain"; "permission_type"; "permission_role"; "shared_date"].

Definition timeLayout : string := "2006-01-02T15:04:05Z".

Section WithLibrary.

(** Library functions of Go that the writers call and whose code is not
    part of the program: [sort.Slice], [time.Time.Format],
    [strconv.FormatInt] and [filepath.Join]. *)
Variable sort_Slice : forall A : Type, (A -> A -> bool) -> list A -> list A.
Variable Format : time.Time -> string -> string.
Variable FormatInt : Z -> Z -> string.
Variable Join : string -> string -> string.

Definition fileRow (rec : FileRecord) : list string :=
  let createdTime :=
    if negb (time.IsZero (fr_CreatedTime rec))
    then Format (fr_CreatedTime rec) timeLayout else "" in
  let modifiedTime :=
    if negb (time.IsZero (fr_ModifiedTime rec))
    then Format (fr_ModifiedTime rec) timeLayout else "" in
  [fr_OwnerEmail rec; fr_FileID rec; fr_FileName rec; fr_FileType rec;
   createdTime; modifiedTime; FormatInt (fr_SizeBytes rec) 10].

Definition shareRow (rec : ExternalShareRecord) : list string :=
  let sharedDate :=
    if negb (time.IsZero (SharedDate rec))
    then Format (SharedDate rec) timeLayout else "" in
  [OwnerEmail rec; FileID rec; FileName rec; SharedWithEmail rec;
   SharedWithDomain rec; PermissionType rec; PermissionRole rec; sharedDate].

(** The [for _, rec := range records] loop of either writer. *)
Fixpoint writeRecords {A : Type} (row : A -> list string) (records : list A)
  (s : Sink) : option error * Sink :=
  match records with
  | [] => (None, s)
  | rec :: rest =>
      match Write (row rec) s with
      | (Some err, s1) => (Some (Wrapped "failed to write record" err), s1)
      | (None, s1) => writeRecords row rest s1
      end
  end.

(** What both writers do once the records are sorted and the path is
    chosen: create, write the header, write the records, flush, and close on
    the way out. *)
Definition writeCSV {A : Type} (path : string) (header : list string)
  (row : A -> list string) (records : list A) (s : Sink)
  : option error * Sink :=
  match Create path s with
  | (Some err, s1) => (Some (Wrapped "failed to create file" err), s1)
  | (None, s1) =>
      deferred_close
        (match Write header s1 with
         | (Some err, s2) => (Some (Wrapped "failed to write header" err), s2)
         | (None, s2) =>
             match writeRecords row records s2 with
             | (Some err, s3) => (Some err, s3)
             | (None, s3) =>
                 match Flush s3 with
                 | (Some err, s4) =>
                     (Some (Wrapped "failed to flush writer" err), s4)
                 | (None, s4) => (None, s4)
                 end
             end
         end)
  end.

(** [WriteFilesByOwner] generates the files-by-owner CSV.  ([sort.Slice]
    sorts the caller's slice in place; the sorted slice is the one written.) *)
Definition WriteFilesByOwner (r : CSVReporter) (records : list FileRecord)
  (s : Sink) : option error * Sink :=
  let records := sort_Slice FileRecord lessFileRecord records in
  let path := Join (outputDir r) "files_by_owner.csv" in
  writeCSV path filesHeader fileRow records s.

(** [WriteExternalSharing] generates the external-sharing CSV. *)
Definition WriteExternalSharing (r : CSVReporter)
  (records : list ExternalShareRecord) (s : Sink) : option error * Sink :=
  let records := sort_Slice ExternalShareRecord lessShareRecord records in
  let path := Join (outputDir r) "external_sharing.csv" in
  writeCSV path sharingHeader shareRow records s.

End WithLibrary.

(** The requirement [sort.Slice] puts on [less] (a strict weak ordering) and
    what it promises in return: the result is a rearrangement of the input
    in which no element is [less] than one before it.  Nothing is promised
    about the order of elements that compare equal (the sort is not stable). *)
Definition strict_weak_order {A : Type} (less : A -> A -> bool) : Prop :=
  (forall a, less a a = false) /\
  (forall a b c, less a b = true -> less b c = true -> less a c = true) /\
  (forall a b c, less a b = false -> less b a = false ->
                 less b c = false -> less c b = false ->
                 less a c = false /\ less c a = false).

Definition sorts
  (sort : forall A : Type, (A -> A -> bool) -> list A -> list A) : Prop :=
  forall (A : Type) (less : A -> A -> bool) (x : list A),
    strict_weak_order less ->
    Permutation x (sort A less x) /\
    StronglySorted (fun a b => less b a = false) (sort A less x).

(** A sort that meets the contract: insertion sort. *)
Fixpoint insert_by {A : Type} (less : A -> A -> bool) (a : A) (l : list A)
  : list A :=
  match l with
  | [] => [a]
  | b :: l' => if less a b then a :: b :: l' else b :: insert_by less a l'
  end.

Definition insertion_sort (A : Type) (less : A -> A -> bool) (l : list A)
  : list A :=
  fold_right (insert_by less) [] l.

(** The order of the report: owner email ascending, then file name
    ascending, both by bytewise comparison.  A row carries the owner email in
    column 0 and the file name in column 2. *)
Definition str_le (a b : string) : Prop := str_lt a b = true \/ a = b.

Definition column (n : nat) (row : list string) : string := nth n row "".

Definition row_le (r1 r2 : list string) : Prop :=
  str_lt (column 0 r1) (column 0 r2) = true \/
  (column 0 r1 = column 0 r2 /\ str_le (column 2 r1) (column 2 r2)).

End reporter.

(** ** Package exitcode and [main] *)

Module exitcode.

(** [Success] indicates the command completed successfully. *)
Definition Success : Z := 0.
(** [ConfigError] indicates a configuration error. *)
Definition ConfigError : Z := 1.
(** [AuthError] indicates an authentication error. *)
Definition AuthError : Z := 2.
(** [APIError] indicates a Google API error. *)
Definition APIError : Z := 3.
(** [InternalError] indicates an internal error. *)
Definition InternalError : Z := 10.

End exitcode.

Module cli.

(** The stages of [runAuditSharing] that can fail, with the error of each
    ([None]: the stage succeeds): [loadConfig], [audit.NewAuditor],
    [auditor.AuditExternalSharing], [reporter.NewCSVReporter] and
    [rep.WriteExternalSharing]. *)
Record Stages : Type := mkStages {
  loadConfig : option error;
  NewAuditor : option error;
  AuditExternalSharing : option error;
  NewCSVReporter : option error;
  WriteExternalSharing : option error
}.

(** [runAuditSharing], as the [error] it returns to cobra. *)
Definition runAuditSharing (st : Stages) : option error :=
  match loadConfig st with
  | Some err => Some (Wrapped "failed to load config" err)
  | None =>
  match NewAuditor st with
  | Some err => Some (Wrapped "failed to create auditor" err)
  | None =>
  match AuditExternalSharing st with
  | Some err => Some (Wrapped "audit failed" err)
  | None =>
  match NewCSVReporter st with
  | Some err => Some (Wrapped "failed to create reporter" err)
  | None =>
  match WriteExternalSharing st with
  | Some err => Some (Wrapped "failed to write report" err)
  | None => None
  end end end end end.

(** [main]: the exit status of the process, given what [rootCmd.Execute()]
    returned.  Returning from [main] exits with status 0. *)
Definition main (executed : option error) : Z :=
  match executed with
  | Some _ => exitcode.InternalError
  | None => 0
  end.

(** The outcome classes of a run. *)
Inductive Outcome : Type :=
| OK
| ConfigFailure
| AuthFailure
| APIFailure
| InternalFailure.

(** A run of [gwork audit sharing] that ends in the given outcome: the
    stage of that class fails, those before it succeed. *)
Definition run (o : Outcome) : Stages :=
  let e := ErrorString "failure" in
  match o with
  | OK => mkStages None None None None None
  | ConfigFailure => mkStages (Some e) None None None None
  | AuthFailure => mkStages None (Some e) None None None
  | APIFailure => mkStages None None (Some e) None None
  | InternalFailure => mkStages None None None (Some e) None
  end.

Definition exit_status (o : Outcome) : Z := main (runAuditSharing (run o)).

(** The exit code that the package [exitcode] and the README assign to each
    outcome class. *)
Definition documented_status (o : Outcome) : Z :=
  match o with
  | OK => exitcode.Success
  | ConfigFailure => exitcode.ConfigError
  | AuthFailure => exitcode.AuthError
  | APIFailure => exitcode.APIError
  | InternalFailure => exitcode.InternalError
  end.

End cli.

(** ** Package strings, as far as [config] uses it *)

Module strings.

(** [strings.Index(s, substr)]: the index of the first instance of
    [substr] in [s], or -1 if [substr] is not present in [s]. *)
Fixpoint Index_at (i : Z) (s substr : string) : Z :=
  if prefix substr s then i
  else match s with
       | EmptyString => -1
       | String _ s' => Index_at (i + 1) s' substr
       end.

Definition Index (s substr : string) : Z := Index_at 0 s substr.

(** [strings.Contains(s, substr)] is [Index(s, substr) >= 0]. *)
Definition Contains (s substr : string) : bool := 0 <=? Index s substr.

(** [strings.Join(elems, sep)]. *)
Definition Join (elems : list string) (sep : string) : string :=
  String.concat sep elems.

End strings.

(** ** Package config: defaults and validation *)

Module config.

(** [GoogleConfig] contains Google API configuration. *)
Record GoogleConfig : Type := mkGoogleConfig {
  ServiceAccountFile : string;
  AdminEmail : string;
  Domain : string
}.

(** [AuditConfig] contains audit-specific configuration. *)
Record AuditConfig : Type := mkAuditConfig {
  IncludeSharedDrives : bool;
  PageSize : Z
}.

(** [OutputConfig] contains output formatting configuration. *)
Record OutputConfig : Type := mkOutputConfig {
  Format : string;
  Directory : string
}.

(** [Config] represents the main configuration structure. *)
Record Config : Type := mkConfig {
  Google : GoogleConfig;
  Audit : AuditConfig;
  Output : OutputConfig
}.

Definition DefaultPageSize : Z := 1000.
Definition DefaultOutputFormat : string := "csv".
Definition DefaultOutputDirectory : string := "./output".

(** [NewDefault] creates a new [Config] with default values. *)
Definition NewDefault : Config :=
  {| Google := {| ServiceAccountFile := ""; AdminEmail := ""; Domain := "" |};
     Audit := {| IncludeSharedDrives := true; PageSize := DefaultPageSize |};
     Output := {| Format := DefaultOutputFormat;
                  Directory := DefaultOutputDirectory |} |}.

(** [ValidOutputFormats] lists the supported output formats. *)
Definition ValidOutputFormats : list string := ["csv"; "json"].

(** The [for _, f := range ValidOutputFormats] loop of [isValidFormat]. *)
Fixpoint isValidFormat_range (formats : list string) (format : string) : bool :=
  match formats with
  | [] => false
  | f :: rest => if String.eqb f format then true
                 else isValidFormat_range rest format
  end.

Definition isValidFormat (format : string) : bool :=
  isValidFormat_range ValidOutputFormats format.

(** The error [errors.Join(errs...)] returns for a non-empty [errs]: it
    wraps the errors it was given, in order. *)
Record joinError : Type := mkJoinError {
  joined : list error
}.

(** [Validate] checks if the configuration is valid.  [IsNotExist path]
    stands for [os.IsNotExist(err)] on the error of [os.Stat(path)]: whether
    the file system reports that nothing exists at [path]. *)
Definition Validate (IsNotExist : string -> bool) (c : Config)
  : option joinError :=
  let errs : list error := [] in
  let errs :=
    if String.eqb (ServiceAccountFile (Google c)) "" then
      errs ++ [ErrorString "google.service_account_file is required"]
    else if IsNotExist (ServiceAccountFile (Google c)) then
      errs ++ [ErrorString ("service account file not found: "
                            ++ ServiceAccountFile (Google c))%string]
    else errs in
  let errs :=
    if String.eqb (AdminEmail (Google c)) "" then
      errs ++ [ErrorString "google.admin_email is required for domain-wide delegation"]
    else if negb (strings.Contains (AdminEmail (Google c)) "@") then
      errs ++ [ErrorString "google.admin_email must be a valid email address"]
    else errs in
  let errs :=
    if String.eqb (Domain (Google c)) "" then
      errs ++ [ErrorString "google.domain is required"]
    else errs in
  let errs :=
    if (PageSize (Audit c) <? 1) || (PageSize (Audit c) >? 1000) then
      errs ++ [ErrorString "audit.page_size must be between 1 and 1000"]
    else errs in
  let errs :=
    if negb (isValidFormat (Format (Output c))) then
      errs ++ [ErrorString ("output.format must be one of: "
                            ++ strings.Join ValidOutputFormats ", ")%string]
    else errs in
  if len errs >? 0 then Some (mkJoinError errs) else None.

End config.

(** ** Package auth: the checks of [NewAuthenticator] *)

Module auth.

(** [Authenticator] handles service account authentication with
    domain-wide delegation. *)
Record Authenticator : Type := mkAuthenticator {
  serviceAccountFile : string;
  adminEmail : string
}.

(** [NewAuthenticator] creates a new authenticator. *)
Definition NewAuthenticator (serviceAccountFile adminEmail : string)
  : Authenticator + error :=
  if String.eqb serviceAccountFile "" then
    inr (ErrorString "service account file path is required")
  else if String.eqb adminEmail "" then
    inr (ErrorString "admin email is required for domain-wide delegation")
  else inl (mkAuthenticator serviceAccountFile adminEmail).

End auth.

(** ** Package audit: the files-by-owner audit, [AuditAll], [NewAuditor] *)

Module auditor.

Import drive client audit.

Definition RFC3339 : string := "2006-01-02T15:04:05Z07:00".

Definition set_FileRecords (v : list FileRecord) (r : AuditResult)
  : AuditResult :=
  {| TotalFiles := TotalFiles r;
     TotalExternalShares := TotalExternalShares r;
     FilesProcessed := FilesProcessed r;
     Errors := Errors r;
     FileRecords := v;
     ExternalShares := ExternalShares r |}.

(** [drive.NewClient], given the service as the ambient [DriveAPI]. *)
Definition NewClient (domain : string) (pageSize : Z)
  (includeSharedDrives : bool) : Client :=
  {| drive.domain := domain;
     drive.pageSize := pageSize;
     drive.includeSharedDrives := includeSharedDrives |}.

(** [NewAuditor] creates a new [Auditor] with the production drive
    client.  [GetDriveService] stands for the method of that name of the
    authenticator: [None] when the service is created, the error otherwise. *)
Definition NewAuditor
  (GetDriveService : auth.Authenticator -> option error)
  (cfg : config.Config) : Auditor + error :=
  match auth.NewAuthenticator
          (config.ServiceAccountFile (config.Google cfg))
          (config.AdminEmail (config.Google cfg)) with
  | inr err => inr (Wrapped "failed to create authenticator" err)
  | inl authenticator =>
      match GetDriveService authenticator with
      | Some err => inr (Wrapped "failed to create drive service" err)
      | None =>
          let driveClient :=
            NewClient (config.Domain (config.Google cfg))
                      (config.PageSize (config.Audit cfg))
                      (config.IncludeSharedDrives (config.Audit cfg)) in
          inl (mkAuditor driveClient)
      end
  end.

Section WithAPI.

Context {W : Type} {API : DriveAPI W} {CTX : api.Context W}.

(** [time.Parse(layout, value)], a library function of Go: the time and
    the error it returns. *)
Variable Parse : string -> string -> time.Time * option error.

(** [fileInfoToRecord] converts a [drive.FileInfo] to a [FileRecord]; the
    errors of both parses are dropped. *)
Definition fileInfoToRecord (f : FileInfo) : FileRecord :=
  let createdTime := fst (Parse RFC3339 (drive.CreatedTime f)) in
  let modifiedTime := fst (Parse RFC3339 (drive.ModifiedTime f)) in
  {| fr_OwnerEmail := drive.OwnerEmail f;
     fr_FileID := ID f;
     fr_FileName := Name f;
     fr_FileType := MimeType f;
     fr_CreatedTime := createdTime;
     fr_ModifiedTime := modifiedTime;
     fr_SizeBytes := Size f |}.

(** [AuditFiles] performs a files-by-owner audit. *)
Definition AuditFiles (fuel : nat) (a : Auditor) (w : W)
  : option ((option AuditResult * option error) * W) :=
  match ListAllFiles fuel (driveClient a) w with
  | None => None
  | Some ((_, Some err), w1) =>
      Some ((None, Some (Wrapped "failed to list files" err)), w1)
  | Some ((files, None), w1) =>
      let result :=
        {| TotalFiles := len files;
           TotalExternalShares := 0;
           FilesProcessed := len files;
           Errors := [];
           FileRecords := [];
           ExternalShares := [] |} in
      let result :=
        fold_left
          (fun result f =>
             let record := fileInfoToRecord f in
             set_FileRecords (FileRecords result ++ [record]) result)
          files result in
      Some ((Some result, None), w1)
  end.

(** [AuditAll] performs all audit operations: the files result, the
    sharing result and the error. *)
Definition AuditAll (fuel : nat) (a : Auditor) (w : W)
  : option ((option AuditResult * option AuditResult * option error) * W) :=
  match AuditFiles fuel a w with
  | None => None
  | Some ((filesResult, Some err), w1) =>
      Some ((None, None, Some (Wrapped "files audit failed" err)), w1)
  | Some ((filesResult, None), w1) =>
      match AuditExternalSharing fuel a w1 with
      | None => None
      | Some ((sharingResult, Some err), w2) =>
          Some ((filesResult, None, Some (Wrapped "sharing audit failed" err)), w2)
      | Some ((sharingResult, None), w2) =>
          Some ((filesResult, sharingResult, None), w2)
      end
  end.

End WithAPI.

End auditor.

(** ** Observations on the log of the scripted double *)

Module observe.

Import drive client.

(** A recorded request carries the settings of the client. *)
Definition uses_settings (c : Client) (ev : mock.Event) : bool :=
  match ev with
  | mock.Polled => true
  | mock.FilesCalled opts =>
      String.eqb (Corpora opts) "domain"
      && (PageSize opts =? pageSize c)
      && Bool.eqb (FilesSupportsAllDrives opts) (includeSharedDrives c)
      && Bool.eqb (IncludeItemsFromAllDrives opts) (includeSharedDrives c)
  | mock.PermsCalled _ opts =>
      Bool.eqb (PermsSupportsAllDrives opts) (includeSharedDrives c)
  end.

(** The files whose first page of permissions a log requests, in order. *)
Definition first_page_fetches (l : list mock.Event) : list string :=
  flat_map
    (fun ev =>
       match ev with
       | mock.PermsCalled fileID opts =>
           if String.eqb (PermsPageToken opts) "" then [fileID] else []
       | _ => []
       end) l.

(** A log requests no permission listing. *)
Definition no_permission_request (l : list mock.Event) : bool :=
  forallb
    (fun ev => match ev with mock.PermsCalled _ _ => false | _ => true end) l.

(** The page size of every file-listing request of a log is within
    [lo..hi]. *)
Definition page_sizes_within (lo hi : Z) (l : list mock.Event) : bool :=
  forallb
    (fun ev =>
       match ev with
       | mock.FilesCalled opts => (lo <=? PageSize opts) && (PageSize opts <=? hi)
       | _ => true
       end) l.

End observe.

(** ** Vocabulary of the specification *)

Module spec.

(** The byte [c] occurs in [s]. *)
Fixpoint contains_byte (c : ascii) (s : string) : bool :=
  match s with
  | EmptyString => false
  | String c' s' => Ascii.eqb c' c || contains_byte c s'
  end.

End spec.

Import spec drive client audit.

(** The items of a sequence of pages, concatenated in the order received. *)
Definition filesOfPages (pages : list ListFilesResult) : list FileInfo :=
  flat_map (fun r => map fileInfoOf (Files r)) pages.

Definition permsOfPages (pages : list ListPermissionsResult)
  : list drive.Permission :=
  flat_map (fun r => map permissionOf (Permissions r)) pages.

(** The requests the aggregators make for a sequence of page tokens: each
    one a poll of the context followed by the listing call. *)
Definition filesRequests (c : Client) (tokens : list string) : list mock.Event :=
  flat_map
    (fun tok => [mock.Polled; mock.FilesCalled (listFilesOptions c tok)]) tokens.

Definition permsRequests (c : Client) (fileID : string) (tokens : list string)
  : list mock.Event :=
  flat_map
    (fun tok =>
       [mock.Polled; mock.PermsCalled fileID (listPermissionsOptions c tok)])
    tokens.

(** The initial [AuditResult] of [AuditExternalSharing]. *)
Definition initialResult (files : list FileInfo) : AuditResult :=
  {| TotalFiles := len files;
     TotalExternalShares := 0;
     FilesProcessed := 0;
     Errors := [];
     FileRecords := [];
     ExternalShares := [] |}.

(** A record was made from a file of [files] and a permission that the
    client classifies as external. *)
Definition made_from (c : Client) (files : list FileInfo)
  (s : ExternalShareRecord) : Prop :=
  exists (f : FileInfo) (p : drive.Permission),
    In f files /\ IsExternalShare c p = true /\ s = permissionToRecord f p.

(** Both [less] closures compare the pair (owner email, file name). *)
Definition key_lt (k1 k2 : string * string) : bool :=
  if str_ne (fst k1) (fst k2)
  then str_lt (fst k1) (fst k2)
  else str_lt (snd k1) (snd k2).

Definition key_le (k1 k2 : string * string) : Prop :=
  str_lt (fst k1) (fst k2) = true \/
  (fst k1 = fst k2 /\ reporter.str_le (snd k1) (snd k2)).

Definition fileKey (rec : FileRecord) : string * string :=
  (fr_OwnerEmail rec, fr_FileName rec).

Definition shareKey (rec : ExternalShareRecord) : string * string :=
  (OwnerEmail rec, FileName rec).

(** ** A run of the audit on the scripted double

    Three files listed over two pages; the permission listing succeeds for
    the first and the third and fails for the second. *)

Module example.

Definition c : Client := mkClient "example.com" 100 true.
Definition a : Auditor := mkAuditor c.

Definition f1 : v3.File :=
  v3.mkFile "f1" "budget.xlsx" "application/vnd.ms-excel"
    [v3.mkUser "alice@example.com"] "2025-01-01T00:00:00Z" "2025-01-02T00:00:00Z" 10.
Definition f2 : v3.File :=
  v3.mkFile "f2" "notes.txt" "text/plain"
    [v3.mkUser "bob@example.com"] "2025-01-03T00:00:00Z" "2025-01-04T00:00:00Z" 20.
Definition f3 : v3.File :=
  v3.mkFile "f3" "plan.doc" "application/msword" [] "" "" 0.

Definition p_outside : v3.Permission :=
  v3.mkPermission "p1" "user" "reader" "x@other.com" "" "X".
Definition p_inside : v3.Permission :=
  v3.mkPermission "p2" "user" "writer" "y@example.com" "" "Y".
Definition p_anyone : v3.Permission :=
  v3.mkPermission "p3" "anyone" "reader" "" "" "".

Definition forbidden : error := ErrorString "googleapi: Error 403: Forbidden".

Definition world : mock.World :=
  mock.mkWorld None Canceled
    [inl (mkListFilesResult [f1; f2] "t1"); inl (mkListFilesResult [f3] "")]
    [inl (mkListPermissionsResult [p_outside; p_inside] "");
     inr forbidden;
     inl (mkListPermissionsResult [p_anyone] "")]
    [].

(** The same run under a context that is cancelled after [n] polls. *)
Definition world_cancelled_after (n : nat) : mock.World :=
  mock.mkWorld (Some n) Canceled
    (mock.files_script world) (mock.perms_script world) [].

Definition listed : list FileInfo := map fileInfoOf [f1; f2; f3].

End example.

(** ** A remote whose listings never end *)

Module endless.

(** Every call returns an empty page and the token [next]; the context
    is never cancelled. *)
Definition api : DriveAPI unit := {|
  ListFiles := fun _ w => (inl (mkListFilesResult [] "next"), w);
  ListPermissions := fun _ _ w => (inl (mkListPermissionsResult [] "next"), w)
|}.

Definition ctx : api.Context unit := {|
  ctx_poll := fun w => (None, w)
|}.

End endless.

(** ** A run of [AuditAll] on the scripted double: the file listing of the
    example is served twice *)

Module example_all.

Definition world : mock.World :=
  mock.mkWorld None Canceled
    (mock.files_script example.world ++ mock.files_script example.world)
    (mock.perms_script example.world)
    [].

End example_all.

(** What an I/O operation consumes of the scripted faults: at most one
    entry, which is the outcome of the operation. *)
Definition consumes (s s1 : reporter.Sink) (e : option error) : Prop :=
  exists used : list (option error),
    reporter.faults s = used ++ reporter.faults s1 /\
    (e = None -> Forall (fun f => f = None) used).

(** The number of requirements of [config.Validate] that a configuration
    violates: a service account file that is named and not reported missing,
    an admin email with an [@], a domain, a page size in 1..1000, an output
    format among [csv] and [json]. *)
Definition violations (IsNotExist : string -> bool) (c : config.Config) : nat :=
  let saf := config.ServiceAccountFile (config.Google c) in
  ((if String.eqb saf "" || IsNotExist saf then 1 else 0)
   + (if contains_byte "@" (config.AdminEmail (config.Google c)) then 0 else 1)
   + (if String.eqb (config.Domain (config.Google c)) "" then 1 else 0)
   + (if ((1 <=? config.PageSize (config.Audit c))
          && (config.PageSize (config.Audit c) <=? 1000))%Z then 0 else 1)
   + (if String.eqb (config.Format (config.Output c)) "csv"
         || String.eqb (config.Format (config.Output c)) "json" then 0 else 1))%nat.

(** ** What the aggregators return and request, stated field by field *)

Module items.

(** A [FileInfo] carries the fields of a file entry of the remote API;
    of the owners of the entry only the first is kept, and an entry without
    owner has the empty owner email. *)
Definition same_file (entry : v3.File) (info : drive.FileInfo) : Prop :=
  drive.ID info = v3.FileId entry /\
  drive.Name info = v3.FileName entry /\
  drive.MimeType info = v3.FileMimeType entry /\
  drive.OwnerEmail info
  = match v3.FileOwners entry with
    | [] => ""
    | owner :: _ => v3.UserEmailAddress owner
    end /\
  drive.CreatedTime info = v3.FileCreatedTime entry /\
  drive.ModifiedTime info = v3.FileModifiedTime entry /\
  drive.Size info = v3.FileSize entry.

(** A [Permission] carries the fields of a permission entry of the remote
    API. *)
Definition same_permission (entry : v3.Permission) (perm : drive.Permission)
  : Prop :=
  drive.PermID perm = v3.PermissionId entry /\
  drive.Type_ perm = v3.PermissionType entry /\
  drive.Role perm = v3.PermissionRole entry /\
  drive.EmailAddress perm = v3.PermissionEmailAddress entry /\
  drive.Domain perm = v3.PermissionDomain entry /\
  drive.DisplayName perm = v3.PermissionDisplayName entry.

(** The page tokens carried by the file-listing requests of a log, read
    off the recorded options, in order. *)
Definition file_tokens (l : list mock.Event) : list string :=
  flat_map
    (fun ev =>
       match ev with
       | mock.FilesCalled opts => [FilesPageToken opts]
       | _ => []
       end) l.

(** The file ID and the page token carried by the permission-listing
    requests of a log, read off the recorded call, in order. *)
Definition permission_tokens (l : list mock.Event) : list (string * string) :=
  flat_map
    (fun ev =>
       match ev with
       | mock.PermsCalled fileID opts => [(fileID, PermsPageToken opts)]
       | _ => []
       end) l.

End items.

(** * Properties *)

(** ** Strings *)

Lemma prefix_at (s : string) :
  prefix "@" s = true <-> exists s', s = String "@" s'.
Proof.
  destruct s as [|c s']; cbn [prefix].
  - split; [discriminate | intros [? ?]; discriminate].
  - destruct (ascii_dec "@" c) as [E|Hne].
    + subst c. split; [eauto | intros _; now destruct s'].
    + split; [discriminate |].
      intros [s'' Heq]. injection Heq as Hc _. congruence.
Qed.

Lemma prefix_at_head (c : ascii) (s : string) :
  prefix "@" (String c s) = Ascii.eqb c "@".
Proof.
  destruct (Ascii.eqb c "@") eqn:E.
  - apply Ascii.eqb_eq in E. subst c. apply prefix_at. eauto.
  - apply Ascii.eqb_neq in E.
    destruct (prefix "@" (String c s)) eqn:P; [|reflexivity].
    apply prefix_at in P. destruct P as [s' P]. injection P as P _. contradiction.
Qed.

Lemma LastIndex_at_absent (s : string) (i : Z) :
  contains_byte "@" s = false -> LastIndex_at i s "@" = -1.
Proof.
  revert i. induction s as [|c s IH]; intros i H;
    cbn [LastIndex_at contains_byte] in *.
  - reflexivity.
  - apply orb_false_iff in H. destruct H as [Hc Hs].
    rewrite (IH (i + 1) Hs), prefix_at_head, Hc. reflexivity.
Qed.

Lemma LastIndex_at_lower (s : string) (i : Z) :
  LastIndex_at i s "@" = -1 \/ i <= LastIndex_at i s "@".
Proof.
  revert i. induction s as [|c s IH]; intros i; cbn [LastIndex_at].
  - now left.
  - rewrite prefix_at_head.
    destruct (0 <=? LastIndex_at (i + 1) s "@") eqn:E0.
    + destruct (IH (i + 1)) as [E|E]; [rewrite E in E0; discriminate | right; lia].
    + destruct (Ascii.eqb c "@"); [right; lia | now left].
Qed.

Lemma LastIndex_at_split (local dom : string) (i : Z) :
  0 <= i ->
  contains_byte "@" dom = false ->
  LastIndex_at i (local ++ String "@" dom) "@" = i + strlen local.
Proof.
  revert i. induction local as [|c l IH]; intros i Hi Hdom.
  - cbn [append LastIndex_at]. rewrite (LastIndex_at_absent dom (i + 1) Hdom).
    rewrite prefix_at_head. unfold strlen. simpl. lia.
  - cbn [append LastIndex_at]. rewrite (IH (i + 1)) by (assumption || lia).
    unfold strlen. cbn [String.length].
    destruct (0 <=? i + 1 + Z.of_nat (String.length l)) eqn:E; [lia|].
    apply Z.leb_gt in E. lia.
Qed.

Lemma length_append (a b : string) :
  String.length (a ++ b) = (String.length a + String.length b)%nat.
Proof. induction a as [|c a IH]; simpl; [reflexivity | now rewrite IH]. Qed.

Lemma drop_bytes_app (a b : string) :
  drop_bytes (String.length a) (a ++ b) = b.
Proof. induction a as [|c a IH]; simpl; [now destruct b | exact IH]. Qed.

Lemma contains_byte_split (c : ascii) (s : string) :
  contains_byte c s = true ->
  exists a b, s = (a ++ String c b)%string /\ contains_byte c b = false.
Proof.
  induction s as [|c' s IH]; simpl; [discriminate|].
  intros H. destruct (contains_byte c s) eqn:Es.
  - destruct (IH eq_refl) as (a & b & -> & Hb).
    exists (String c' a), b. split; [reflexivity | exact Hb].
  - rewrite orb_false_r in H. apply Ascii.eqb_eq in H. subst c'.
    exists EmptyString, s. split; [reflexivity | exact Es].
Qed.

(** The index handed to the slice expression of [ExtractDomain] is within
    the string: the slice never panics. *)
Lemma LastIndex_range (s : string) :
  -1 <= LastIndex s "@" < strlen s.
Proof.
  unfold LastIndex. destruct (contains_byte "@" s) eqn:E.
  - destruct (contains_byte_split _ _ E) as (a & b & -> & Hb).
    rewrite LastIndex_at_split by (assumption || lia).
    unfold strlen. rewrite length_append. simpl String.length. lia.
  - rewrite LastIndex_at_absent by assumption. unfold strlen. lia.
Qed.

Lemma ExtractDomain_absent (email : string) :
  contains_byte "@" email = false -> ExtractDomain email = "".
Proof.
  intros H. unfold ExtractDomain, LastIndex.
  now rewrite LastIndex_at_absent.
Qed.

Lemma ExtractDomain_split (local dom : string) :
  contains_byte "@" dom = false ->
  ExtractDomain (local ++ String "@" dom) = dom.
Proof.
  intros H. unfold ExtractDomain, LastIndex.
  rewrite LastIndex_at_split by (assumption || lia).
  destruct (0 + strlen local <? 0) eqn:E.
  - apply Z.ltb_lt in E. unfold strlen in E. lia.
  - unfold slice_from, strlen.
    replace (Z.to_nat (0 + Z.of_nat (String.length local) + 1))
      with (String.length (local ++ "@")).
    + replace (local ++ String "@" dom)%string with ((local ++ "@") ++ dom)%string.
      * apply drop_bytes_app.
      * clear. induction local as [|c l IH]; simpl; [reflexivity | now rewrite IH].
    + rewrite length_append. simpl. lia.
Qed.

(** The cases of [TestExtractDomain]. *)
Example ExtractDomain_tests :
  ExtractDomain "user@example.com" = "example.com" /\
  ExtractDomain "user@mail.example.com" = "mail.example.com" /\
  ExtractDomain "user@name@example.com" = "example.com" /\
  ExtractDomain "notanemail" = "" /\
  ExtractDomain "" = "" /\
  ExtractDomain "user@" = "" /\
  ExtractDomain "@example.com" = "example.com" /\
  ExtractDomain "user+tag@example.co.uk" = "example.co.uk".
Proof. repeat split; reflexivity. Qed.

(** C8. For every string [email], [ExtractDomain] returns the substring
    after the last occurrence of [@]: the empty string when [email] contains
    no [@], and [dom] whenever [email] is [local ++ "@" ++ dom] with no [@]
    in [dom] (whatever [local] contains, so only the segment after the last
    [@] counts).  The two cases cover every string: an email that contains
    an [@] splits in that way.  In particular [a@b@dom] gives [dom]. *)
Theorem ExtractDomain_after_last_at :
  forall email : string,
    (contains_byte "@" email = false -> ExtractDomain email = "") /\
    (forall local dom : string,
        email = (local ++ "@" ++ dom)%string ->
        contains_byte "@" dom = false ->
        ExtractDomain email = dom) /\
    (contains_byte "@" email = true ->
     exists local dom : string,
       email = (local ++ "@" ++ dom)%string /\
       contains_byte "@" dom = false /\
       ExtractDomain email = dom) /\
    ExtractDomain "local@dom" = "dom" /\
    ExtractDomain "a@b@dom" = "dom" /\
    ExtractDomain "nodomain" = "".
Proof.
  intros email. split; [|split; [|split]].
  - apply ExtractDomain_absent.
  - intros local dom -> Hdom. now apply ExtractDomain_split.
  - intros H. destruct (contains_byte_split _ _ H) as (a & b & -> & Hb).
    exists a, b. repeat split; [exact Hb | now apply ExtractDomain_split].
  - repeat split; reflexivity.
Qed.

(** ** The domain classifier *)

Lemma str_ne_true (a b : string) : str_ne a b = true <-> a <> b.
Proof.
  unfold str_ne. rewrite negb_true_iff. apply String.eqb_neq.
Qed.

(** The cases of [TestClient_IsExternalShare] that the specification
    quotes, with organization domain [example.com]. *)
Example IsExternalShare_tests :
  let c := mkClient "example.com" 100 false in
  IsExternalShare c (drive.mkPermission "" "domain" "" "" "example.com" "") = false /\
  IsExternalShare c (drive.mkPermission "" "domain" "" "" "" "") = true /\
  IsExternalShare c (drive.mkPermission "" "user" "" "x@example.com" "" "") = false /\
  IsExternalShare c (drive.mkPermission "" "user" "" "" "" "") = false /\
  IsExternalShare c (drive.mkPermission "" "user" "" "x@other.com" "" "") = true /\
  IsExternalShare c (drive.mkPermission "" "user" "" "user@name@external.com" "" "") = true /\
  IsExternalShare c (drive.mkPermission "" "unknown" "" "" "" "") = false.
Proof. repeat split; reflexivity. Qed.

Lemma IsExternalShare_anyone (c : Client) (perm : drive.Permission) :
  Type_ perm = "anyone" -> IsExternalShare c perm = true.
Proof. unfold IsExternalShare. now intros ->. Qed.

Lemma IsExternalShare_domain (c : Client) (perm : drive.Permission) :
  Type_ perm = "domain" ->
  IsExternalShare c perm = str_ne (Domain perm) (domain c).
Proof. unfold IsExternalShare. now intros ->. Qed.

Lemma IsExternalShare_no_email (c : Client) (perm : drive.Permission) :
  Type_ perm = "user" \/ Type_ perm = "group" ->
  EmailAddress perm = "" ->
  IsExternalShare c perm = false.
Proof. unfold IsExternalShare. now intros [-> | ->] ->. Qed.

Lemma IsExternalShare_email (c : Client) (perm : drive.Permission) :
  Type_ perm = "user" \/ Type_ perm = "group" ->
  EmailAddress perm <> "" ->
  IsExternalShare c perm = str_ne (ExtractDomain (EmailAddress perm)) (domain c).
Proof.
  unfold IsExternalShare. intros H He. apply String.eqb_neq in He.
  destruct H as [-> | ->]; cbn; now rewrite He.
Qed.

(** The comparison with the organization domain is byte for byte. *)
Example IsExternalShare_case_sensitive :
  IsExternalShare (mkClient "example.com" 100 false)
    (drive.mkPermission "" "user" "" "x@Example.com" "" "") = true.
Proof. reflexivity. Qed.

(** C1. [IsExternalShare] follows the decision table, first match first:
    type [anyone] is external whatever the other fields; type [domain] is
    external iff the permission's domain differs from the organization
    domain (so an empty permission domain is external for every organization
    domain that configuration validation accepts, i.e. a non-empty one);
    type [user] or [group] is internal when the email is empty, and
    otherwise external iff the domain extracted from the email (for
    [local ++ "@" ++ dom] with no [@] in [dom], that is [dom]) differs from
    the organization domain, byte for byte; any other type is internal. *)
Theorem IsExternalShare_decision_table :
  forall (c : Client) (perm : drive.Permission),
    (Type_ perm = "anyone" -> IsExternalShare c perm = true) /\
    (Type_ perm = "domain" ->
     (IsExternalShare c perm = true <-> Domain perm <> domain c) /\
     (domain c <> "" -> Domain perm = "" -> IsExternalShare c perm = true)) /\
    (Type_ perm = "user" \/ Type_ perm = "group" ->
     (EmailAddress perm = "" -> IsExternalShare c perm = false) /\
     (EmailAddress perm <> "" ->
      (IsExternalShare c perm = true <->
       ExtractDomain (EmailAddress perm) <> domain c) /\
      (forall local dom : string,
          EmailAddress perm = (local ++ "@" ++ dom)%string ->
          contains_byte "@" dom = false ->
          (IsExternalShare c perm = true <-> dom <> domain c)))) /\
    (Type_ perm <> "anyone" -> Type_ perm <> "domain" ->
     Type_ perm <> "user" -> Type_ perm <> "group" ->
     IsExternalShare c perm = false).
Proof.
  intros c perm. split; [|split; [|split]].
  - intros H. now rewrite IsExternalShare_anyone.
  - intros H. rewrite (IsExternalShare_domain c perm H). split.
    + apply str_ne_true.
    + intros Hc Hd. apply str_ne_true. congruence.
  - intros H. split.
    + intros He. now apply IsExternalShare_no_email.
    + intros He. rewrite (IsExternalShare_email c perm H He). split.
      * apply str_ne_true.
      * intros local dom Hsplit Hdom.
        rewrite Hsplit. change (local ++ "@" ++ dom)%string
          with (local ++ String "@" dom)%string.
        rewrite ExtractDomain_split by assumption. apply str_ne_true.
  - intros H1 H2 H3 H4. unfold IsExternalShare.
    apply String.eqb_neq in H1, H2, H3, H4. now rewrite H1, H2, H3, H4.
Qed.

(** ** The pagination aggregators *)

Lemma appendFiles_app (acc : list FileInfo) (files : list v3.File) :
  appendFiles acc files = acc ++ map fileInfoOf files.
Proof.
  unfold appendFiles. revert acc.
  induction files as [|f fs IH]; intros acc; simpl.
  - now rewrite app_nil_r.
  - rewrite IH, <- app_assoc. reflexivity.
Qed.

Lemma appendPerms_app (acc : list drive.Permission) (perms : list v3.Permission) :
  appendPerms acc perms = acc ++ map permissionOf perms.
Proof.
  unfold appendPerms. revert acc.
  induction perms as [|p ps IH]; intros acc; simpl.
  - now rewrite app_nil_r.
  - rewrite IH, <- app_assoc. reflexivity.
Qed.

Section Fuel.

Context {W : Type} {API : DriveAPI W} {CTX : api.Context W}.

(** More fuel never changes an answer. *)
Lemma ListAllFiles_loop_fuel (c : Client) (n m : nat) :
  (n <= m)%nat ->
  forall acc tok w res,
    ListAllFiles_loop n c acc tok w = Some res ->
    ListAllFiles_loop m c acc tok w = Some res.
Proof.
  revert m. induction n as [|n IH]; intros m Hle acc tok w res H.
  - discriminate.
  - destruct m as [|m]; [lia|]. cbn [ListAllFiles_loop] in *.
    destruct (ctx_poll w) as [[e|] w1]; [exact H|].
    destruct (ListFiles (listFilesOptions c tok) w1) as [[r|err] w2]; [|exact H].
    destruct (String.eqb (FilesNextPageToken r) ""); [exact H|].
    apply IH; [lia | exact H].
Qed.

Lemma GetFilePermissions_loop_fuel (c : Client) (fileID : string) (n m : nat) :
  (n <= m)%nat ->
  forall acc tok w res,
    GetFilePermissions_loop n c fileID acc tok w = Some res ->
    GetFilePermissions_loop m c fileID acc tok w = Some res.
Proof.
  revert m. induction n as [|n IH]; intros m Hle acc tok w res H.
  - discriminate.
  - destruct m as [|m]; [lia|]. cbn [GetFilePermissions_loop] in *.
    destruct (ctx_poll w) as [[e|] w1]; [exact H|].
    destruct (ListPermissions fileID (listPermissionsOptions c tok) w1)
      as [[r|err] w2]; [|exact H].
    destruct (String.eqb (PermsNextPageToken r) ""); [exact H|].
    apply IH; [lia | exact H].
Qed.

Lemma sharing_loop_fuel (c : Client) (n m : nat) :
  (n <= m)%nat ->
  forall files result w res,
    sharing_loop n c files result w = Some res ->
    sharing_loop m c files result w = Some res.
Proof.
  intros Hle files. induction files as [|f fs IH]; intros result w res H.
  - exact H.
  - cbn [sharing_loop] in *.
    destruct (ctx_poll w) as [[e|] w1]; [exact H|].
    destruct (GetFilePermissions n c (ID f) w1) as [[[perms err] w2]|] eqn:E;
      [|discriminate].
    unfold GetFilePermissions in *.
    rewrite (GetFilePermissions_loop_fuel c (ID f) n m Hle _ _ _ _ E).
    destruct err; apply IH; exact H.
Qed.

End Fuel.

(** *** On the scripted double *)

Lemma files_pages_mock (c : Client) (cerr : error)
  (extra : list (ListFilesResult + error))
  (perms : list (ListPermissionsResult + error))
  (pre : list ListFilesResult) (last : ListFilesResult) :
  Forall (fun r => FilesNextPageToken r <> "") pre ->
  FilesNextPageToken last = "" ->
  forall (fuel : nat) (acc : list FileInfo) (tok : string) (log0 : list mock.Event),
    (List.length pre < fuel)%nat ->
    ListAllFiles_loop fuel c acc tok
      (mock.mkWorld None cerr (map inl (pre ++ [last]) ++ extra) perms log0)
    = Some ((acc ++ filesOfPages (pre ++ [last]), None),
            mock.mkWorld None cerr extra perms
              (log0 ++ filesRequests c (tok :: map FilesNextPageToken pre))).
Proof.
  intros Hpre Hlast. induction Hpre as [|r pre Hr Hpre IH];
    intros fuel acc tok log0 Hfuel.
  - destruct fuel as [|fuel]; [simpl in Hfuel; lia|].
    cbn. rewrite Hlast. cbn. rewrite appendFiles_app, app_nil_r, <- app_assoc.
    reflexivity.
  - destruct fuel as [|fuel]; [simpl in Hfuel; lia|].
    cbn [ListAllFiles_loop ctx_poll mock.mockContext mock.poll mock.polls_left
         ListFiles mock.mockAPI mock.listFiles mock.files_script mock.log
         mock.cancel_err mock.perms_script map app].
    apply String.eqb_neq in Hr. rewrite Hr.
    rewrite IH by (simpl in Hfuel; lia).
    rewrite appendFiles_app. unfold filesOfPages. cbn [flat_map map app].
    rewrite <- !app_assoc. reflexivity.
Qed.

Lemma perms_pages_mock (c : Client) (fileID : string) (cerr : error)
  (files : list (ListFilesResult + error))
  (extra : list (ListPermissionsResult + error))
  (pre : list ListPermissionsResult) (last : ListPermissionsResult) :
  Forall (fun r => PermsNextPageToken r <> "") pre ->
  PermsNextPageToken last = "" ->
  forall (fuel : nat) (acc : list drive.Permission) (tok : string)
         (log0 : list mock.Event),
    (List.length pre < fuel)%nat ->
    GetFilePermissions_loop fuel c fileID acc tok
      (mock.mkWorld None cerr files (map inl (pre ++ [last]) ++ extra) log0)
    = Some ((acc ++ permsOfPages (pre ++ [last]), None),
            mock.mkWorld None cerr files extra
              (log0 ++ permsRequests c fileID (tok :: map PermsNextPageToken pre))).
Proof.
  intros Hpre Hlast. induction Hpre as [|r pre Hr Hpre IH];
    intros fuel acc tok log0 Hfuel.
  - destruct fuel as [|fuel]; [simpl in Hfuel; lia|].
    cbn. rewrite Hlast. cbn. rewrite appendPerms_app, app_nil_r, <- app_assoc.
    reflexivity.
  - destruct fuel as [|fuel]; [simpl in Hfuel; lia|].
    cbn [GetFilePermissions_loop ctx_poll mock.mockContext mock.poll
         mock.polls_left ListPermissions mock.mockAPI mock.listPermissions
         mock.files_script mock.log mock.cancel_err mock.perms_script map app].
    apply String.eqb_neq in Hr. rewrite Hr.
    rewrite IH by (simpl in Hfuel; lia).
    rewrite appendPerms_app. unfold permsOfPages. cbn [flat_map map app].
    rewrite <- !app_assoc. reflexivity.
Qed.

Lemma same_file_fileInfoOf (entries : list v3.File) :
  Forall2 items.same_file entries (map fileInfoOf entries).
Proof.
  induction entries as [|entry entries IH]; constructor; [|exact IH].
  unfold items.same_file, fileInfoOf. cbn. repeat split; reflexivity.
Qed.

Lemma same_permission_permissionOf (entries : list v3.Permission) :
  Forall2 items.same_permission entries (map permissionOf entries).
Proof.
  induction entries as [|entry entries IH]; constructor; [|exact IH].
  unfold items.same_permission, permissionOf. cbn. repeat split; reflexivity.
Qed.

Lemma same_file_pages (pages : list ListFilesResult) :
  Forall2 items.same_file (flat_map Files pages) (filesOfPages pages).
Proof.
  unfold filesOfPages. induction pages as [|page pages IH]; [constructor|].
  cbn [flat_map]. apply Forall2_app; [apply same_file_fileInfoOf | exact IH].
Qed.

Lemma same_permission_pages (pages : list ListPermissionsResult) :
  Forall2 items.same_permission (flat_map Permissions pages) (permsOfPages pages).
Proof.
  unfold permsOfPages. induction pages as [|page pages IH]; [constructor|].
  cbn [flat_map].
  apply Forall2_app; [apply same_permission_permissionOf | exact IH].
Qed.

Lemma tokens_of_filesRequests (c : Client) (tokens : list string) :
  items.file_tokens (filesRequests c tokens) = tokens /\
  items.permission_tokens (filesRequests c tokens) = [].
Proof.
  induction tokens as [|tok tokens [IHf IHp]]; [split; reflexivity|].
  unfold items.file_tokens, items.permission_tokens, filesRequests in *.
  cbn [flat_map app]. rewrite IHf, IHp. split; reflexivity.
Qed.

Lemma tokens_of_permsRequests (c : Client) (fileID : string)
  (tokens : list string) :
  items.permission_tokens (permsRequests c fileID tokens)
  = map (fun tok => (fileID, tok)) tokens /\
  items.file_tokens (permsRequests c fileID tokens) = [].
Proof.
  induction tokens as [|tok tokens [IHp IHf]]; [split; reflexivity|].
  unfold items.file_tokens, items.permission_tokens, permsRequests in *.
  cbn [flat_map app map]. rewrite IHf, IHp. split; reflexivity.
Qed.

(** C2. Whatever sequence of pages the remote listing operation returns —
    any number of pages with a non-empty continuation token, then a page
    with an empty one — and as long as the context is not cancelled, both
    [ListAllFiles] and [GetFilePermissions] return, with no error, one item
    for each entry of those pages, in the order received: the items carry,
    field by field, what the entries carry.  The requests they make are
    recorded by the double, and the page tokens read off the recorded
    requests are the empty token first, then the token each call returned,
    in order (for [GetFilePermissions], each with the file ID asked for).
    Nothing is requested after the page with the empty token: the responses
    scripted after it are left unconsumed. *)
Theorem pagination_concatenates_pages :
  forall (c : Client) (fileID : string) (cerr : error)
         (fpre : list ListFilesResult) (flast : ListFilesResult)
         (fextra : list (ListFilesResult + error))
         (ppre : list ListPermissionsResult) (plast : ListPermissionsResult)
         (pextra : list (ListPermissionsResult + error))
         (log0 : list mock.Event) (fuel : nat),
    Forall (fun r => FilesNextPageToken r <> "") fpre ->
    FilesNextPageToken flast = "" ->
    Forall (fun r => PermsNextPageToken r <> "") ppre ->
    PermsNextPageToken plast = "" ->
    (List.length fpre < fuel)%nat ->
    (List.length ppre < fuel)%nat ->
    let fscript := map inl (fpre ++ [flast]) ++ fextra in
    let pscript := map inl (ppre ++ [plast]) ++ pextra in
    let w := mock.mkWorld None cerr fscript pscript log0 in
    (exists (files : list FileInfo) (requested : list mock.Event),
        ListAllFiles fuel c w
        = Some ((files, None),
                mock.mkWorld None cerr fextra pscript (log0 ++ requested)) /\
        Forall2 items.same_file (flat_map Files (fpre ++ [flast])) files /\
        items.file_tokens requested = "" :: map FilesNextPageToken fpre /\
        items.permission_tokens requested = []) /\
    (exists (perms : list drive.Permission) (requested : list mock.Event),
        GetFilePermissions fuel c fileID w
        = Some ((perms, None),
                mock.mkWorld None cerr fscript pextra (log0 ++ requested)) /\
        Forall2 items.same_permission
          (flat_map Permissions (ppre ++ [plast])) perms /\
        items.permission_tokens requested
        = map (fun tok => (fileID, tok)) ("" :: map PermsNextPageToken ppre) /\
        items.file_tokens requested = []).
Proof.
  intros c fileID cerr fpre flast fextra ppre plast pextra log0 fuel
    Hf Hfl Hp Hpl Hfuel1 Hfuel2 fscript pscript w.
  split.
  - exists (filesOfPages (fpre ++ [flast])),
           (filesRequests c ("" :: map FilesNextPageToken fpre)).
    split; [|split; [apply same_file_pages | apply tokens_of_filesRequests]].
    unfold ListAllFiles, w, fscript.
    now rewrite (files_pages_mock c cerr fextra pscript fpre flast Hf Hfl).
  - exists (permsOfPages (ppre ++ [plast])),
           (permsRequests c fileID ("" :: map PermsNextPageToken ppre)).
    split; [|split; [apply same_permission_pages | apply tokens_of_permsRequests]].
    unfold GetFilePermissions, w, pscript.
    now rewrite (perms_pages_mock c fileID cerr fscript pextra ppre plast Hp Hpl).
Qed.

(** The example of the specification: pages [([a; b], "t1")] and
    [([c], "")] give [[a; b; c]], for files and for permissions, with the
    tokens [""] and ["t1"] requested. *)
Lemma pagination_concatenates_pages_witness :
  let c := mkClient "example.com" 100 true in
  let f := fun n => v3.mkFile n n "" [v3.mkUser "owner@example.com"] "" "" 0 in
  let p := fun n => v3.mkPermission n "user" "reader" "" "" "" in
  let fscript := [inl (mkListFilesResult [f "a"; f "b"] "t1");
                  inl (mkListFilesResult [f "c"] "")] in
  let pscript := [inl (mkListPermissionsResult [p "a"; p "b"] "t1");
                  inl (mkListPermissionsResult [p "c"] "")] in
  let w := mock.mkWorld None Canceled fscript pscript [] in
  (exists (files : list FileInfo) (requested : list mock.Event),
      ListAllFiles 2 c w
      = Some ((files, None), mock.mkWorld None Canceled [] pscript requested) /\
      map ID files = ["a"; "b"; "c"] /\
      map drive.OwnerEmail files
      = ["owner@example.com"; "owner@example.com"; "owner@example.com"] /\
      items.file_tokens requested = [""; "t1"]) /\
  (exists (perms : list drive.Permission) (requested : list mock.Event),
      GetFilePermissions 2 c "id" w
      = Some ((perms, None), mock.mkWorld None Canceled fscript [] requested) /\
      map PermID perms = ["a"; "b"; "c"] /\
      items.permission_tokens requested = [("id", ""); ("id", "t1")]).
Proof.
  intros c f p fscript pscript w.
  destruct (pagination_concatenates_pages c "id" Canceled
              [mkListFilesResult [f "a"; f "b"] "t1"]
              (mkListFilesResult [f "c"] "") []
              [mkListPermissionsResult [p "a"; p "b"] "t1"]
              (mkListPermissionsResult [p "c"] "") [] [] 2%nat)
    as [(files & freq & Hfiles & Hsame & Hftok & _)
        (perms & preq & Hperms & Hpsame & Hptok & _)].
  - repeat constructor; discriminate.
  - reflexivity.
  - repeat constructor; discriminate.
  - reflexivity.
  - simpl; lia.
  - simpl; lia.
  - split.
    + exists files, freq. split; [exact Hfiles|].
      cbn in Hsame.
      repeat match goal with
             | H : Forall2 _ _ _ |- _ => inversion H; clear H; subst
             end.
      repeat match goal with
             | H : items.same_file _ _ |- _ =>
                 destruct H as (? & ? & ? & ? & ? & ? & ?)
             end.
      cbn [map]. split; [|split; [|exact Hftok]]; cbn in *; congruence.
    + exists perms, preq. split; [exact Hperms|].
      cbn in Hpsame.
      repeat match goal with
             | H : Forall2 _ _ _ |- _ => inversion H; clear H; subst
             end.
      repeat match goal with
             | H : items.same_permission _ _ |- _ =>
                 destruct H as (? & ? & ? & ? & ? & ?)
             end.
      cbn [map]. split; [|exact Hptok]. cbn in *. congruence.
Defined.

(** ** The external-sharing audit *)

Lemma appendShares_filter (c : Client) (file : FileInfo)
  (shares : list ExternalShareRecord) (perms : list drive.Permission) :
  appendShares c file shares perms
  = shares ++ map (permissionToRecord file) (filter (IsExternalShare c) perms).
Proof.
  unfold appendShares. revert shares.
  induction perms as [|p ps IH]; intros shares; simpl.
  - now rewrite app_nil_r.
  - rewrite IH. destruct (IsExternalShare c p); simpl.
    + now rewrite <- app_assoc.
    + reflexivity.
Qed.

Lemma wrap_int_id (z : Z) : MinInt <= z <= MaxInt -> wrap_int z = z.
Proof.
  unfold wrap_int, MinInt, MaxInt. intros H.
  rewrite Z.mod_small; lia.
Qed.

Section Audit.

Context {W : Type} {API : DriveAPI W} {CTX : api.Context W}.

(** The loop over a concatenation: the second part is entered exactly when
    the first part ran to its end. *)
Lemma sharing_loop_app (fuel : nat) (c : Client) (l1 l2 : list FileInfo) :
  forall (r : AuditResult) (w : W),
    sharing_loop fuel c (l1 ++ l2) r w
    = match sharing_loop fuel c l1 r w with
      | Some ((r', None), w') => sharing_loop fuel c l2 r' w'
      | other => other
      end.
Proof.
  induction l1 as [|f l1 IH]; intros r w.
  - reflexivity.
  - cbn [app sharing_loop].
    destruct (ctx_poll w) as [[e|] w1]; [reflexivity|].
    destruct (GetFilePermissions fuel c (ID f) w1) as [[[perms [err|]] w2]|];
      [apply IH | apply IH | reflexivity].
Qed.

(** What one pass of the loop preserves and how it grows the result. *)
Lemma sharing_loop_inv (fuel : nat) (c : Client) (files : list FileInfo) :
  forall (r : AuditResult) (w : W) (r' : AuditResult) (e : option error) (w' : W),
    sharing_loop fuel c files r w = Some ((r', e), w') ->
    TotalFiles r' = TotalFiles r /\
    TotalExternalShares r' = TotalExternalShares r /\
    FileRecords r' = FileRecords r /\
    (exists shares,
        ExternalShares r' = ExternalShares r ++ shares /\
        Forall (made_from c files) shares) /\
    (exists (errs : list error) (processed : nat),
        Errors r' = Errors r ++ errs /\
        (List.length errs + processed <= List.length files)%nat /\
        (e = None -> (List.length errs + processed = List.length files)%nat) /\
        (0 <= FilesProcessed r ->
         FilesProcessed r + Z.of_nat (List.length files) <= MaxInt ->
         FilesProcessed r' = FilesProcessed r + Z.of_nat processed)).
Proof.
  induction files as [|f files IH]; intros r w r' e w' H.
  - cbn in H. injection H as <- <- <-.
    repeat split; try reflexivity.
    + exists []. split; [now rewrite app_nil_r | constructor].
    + exists [], O. repeat split; try (simpl; lia). now rewrite app_nil_r.
  - cbn [sharing_loop] in H.
    destruct (ctx_poll w) as [[e0|] w1].
    { injection H as <- <- <-. repeat split; try reflexivity.
      - exists []. split; [now rewrite app_nil_r | constructor].
      - exists [], O. repeat split; try (simpl; lia);
          [now rewrite app_nil_r | discriminate]. }
    destruct (GetFilePermissions fuel c (ID f) w1) as [[[perms [err|]] w2]|];
      [| |discriminate].
    + apply IH in H. cbn in H.
      destruct H as (HT & HX & HR & (shares & HS & HF) & (errs & k & HE & Hle & Hn & HP)).
      repeat split; try assumption.
      * exists shares. split; [assumption|].
        eapply Forall_impl; [|exact HF].
        intros s (f0 & p & Hin & Hext & ->). exists f0, p. simpl. auto.
      * exists (Wrapped ("file " ++ ID f)%string err :: errs), k.
        repeat split.
        -- rewrite HE, <- app_assoc. reflexivity.
        -- simpl. lia.
        -- intros He. specialize (Hn He). simpl. lia.
        -- intros H0 Hmax. apply HP; [assumption|].
           cbn [List.length] in Hmax. unfold MaxInt in *. lia.
    + apply IH in H. cbn in H.
      destruct H as (HT & HX & HR & (shares & HS & HF) & (errs & k & HE & Hle & Hn & HP)).
      rewrite appendShares_filter in HS.
      repeat split; try assumption.
      * exists (map (permissionToRecord f) (filter (IsExternalShare c) perms) ++ shares).
        split; [now rewrite HS, <- app_assoc|].
        apply Forall_app. split.
        -- apply Forall_forall. intros s Hs. apply in_map_iff in Hs.
           destruct Hs as (p & <- & Hp). apply filter_In in Hp.
           exists f, p. simpl. tauto.
        -- eapply Forall_impl; [|exact HF].
           intros s (f0 & p & Hin & Hext & ->). exists f0, p. simpl. auto.
      * exists errs, (S k). repeat split.
        -- assumption.
        -- simpl. lia.
        -- intros He. specialize (Hn He). simpl. lia.
        -- intros H0 Hmax. cbn [List.length] in Hmax.
           rewrite wrap_int_id in HP by (unfold MinInt, MaxInt in *; lia).
           rewrite HP by (unfold MaxInt in *; lia). lia.
Qed.

End Audit.

Section AuditRun.

Context {W : Type} {API : DriveAPI W} {CTX : api.Context W}.

(** A run of [AuditExternalSharing] that hands back a result is a
    successful file listing followed by the loop over the listed files. *)
Lemma AuditExternalSharing_inv (fuel : nat) (a : Auditor) (w w' : W)
  (res : AuditResult) (e : option error) :
  AuditExternalSharing fuel a w = Some ((Some res, e), w') ->
  exists (files : list FileInfo) (w1 : W) (r' : AuditResult),
    ListAllFiles fuel (driveClient a) w = Some ((files, None), w1) /\
    sharing_loop fuel (driveClient a) files (initialResult files) w1
    = Some ((r', e), w') /\
    res = match e with
          | None => set_TotalExternalShares (len (ExternalShares r')) r'
          | Some _ => r'
          end.
Proof.
  unfold AuditExternalSharing. intros H.
  destruct (ListAllFiles fuel (driveClient a) w) as [[[files [err|]] w1]|] eqn:EL;
    [discriminate| |discriminate].
  fold (initialResult files) in H.
  destruct (sharing_loop fuel (driveClient a) files (initialResult files) w1)
    as [[[r' [e'|]] w2]|] eqn:ES; [| |discriminate];
    injection H as <- <- <-; exists files, w1, r'; repeat split; assumption.
Qed.

Lemma AuditExternalSharing_shares (fuel : nat) (a : Auditor) (w w' : W)
  (res : AuditResult) (e : option error) :
  AuditExternalSharing fuel a w = Some ((Some res, e), w') ->
  exists (files : list FileInfo) (w1 : W),
    ListAllFiles fuel (driveClient a) w = Some ((files, None), w1) /\
    Forall (made_from (driveClient a) files) (ExternalShares res).
Proof.
  intros H. apply AuditExternalSharing_inv in H.
  destruct H as (files & w1 & r' & HL & HS & ->).
  exists files, w1. split; [assumption|].
  apply sharing_loop_inv in HS.
  destruct HS as (_ & _ & _ & (shares & Hs & HF) & _).
  cbn in Hs. destruct e; cbn; now rewrite Hs.
Qed.

End AuditRun.



(** C6. In every run of the external-sharing audit that hands back a
    result (complete, or partial on cancellation), the file listing of that
    run succeeded, and every [ExternalShareRecord] of the result has the ID,
    the name and the owner email of one of the files that listing returned. *)
Theorem external_shares_refer_to_listed_files :
  forall (W : Type) (API : DriveAPI W) (CTX : api.Context W)
         (fuel : nat) (a : Auditor) (w w' : W)
         (res : AuditResult) (e : option error),
    AuditExternalSharing fuel a w = Some ((Some res, e), w') ->
    exists (files : list FileInfo) (w1 : W),
      ListAllFiles fuel (driveClient a) w = Some ((files, None), w1) /\
      forall s : ExternalShareRecord,
        In s (ExternalShares res) ->
        exists f : FileInfo,
          In f files /\
          FileID s = ID f /\
          FileName s = Name f /\
          OwnerEmail s = drive.OwnerEmail f.
Proof.
  intros W API CTX fuel a w w' res e H.
  destruct (AuditExternalSharing_shares fuel a w w' res e H)
    as (files & w1 & HL & HF).
  exists files, w1. split; [assumption|].
  intros s Hs. rewrite Forall_forall in HF.
  destruct (HF s Hs) as (f & p & Hin & _ & ->).
  exists f. repeat split; assumption.
Qed.

Lemma external_shares_refer_to_listed_files_witness :
  exists (res : AuditResult) (w' : mock.World),
    AuditExternalSharing 2 example.a example.world = Some ((Some res, None), w') /\
    List.length (ExternalShares res) = 2%nat /\
    exists (files : list FileInfo) (w1 : mock.World),
      ListAllFiles 2 example.c example.world = Some ((files, None), w1) /\
      forall s : ExternalShareRecord,
        In s (ExternalShares res) ->
        exists f : FileInfo,
          In f files /\
          FileID s = ID f /\
          FileName s = Name f /\
          OwnerEmail s = drive.OwnerEmail f.
Proof.
  do 2 eexists.
  match goal with
  | |- ?A /\ _ => assert (H : A) by (cbv; reflexivity)
  end.
  split; [exact H|]. split; [reflexivity|].
  exact (external_shares_refer_to_listed_files _ _ _ _ _ _ _ _ _ H).
Defined.

(** C9. The shared-with domain of the record made from a permission is
    the permission's domain when that is non-empty; otherwise the domain
    extracted from the permission's email when the email is non-empty (the
    part after its last [@]); otherwise the empty string.  Every record in
    the result of an audit run is made in this way from a permission that
    the client classified as external. *)
Theorem shared_with_domain_derivation :
  forall (W : Type) (API : DriveAPI W) (CTX : api.Context W),
    (forall (file : FileInfo) (perm : drive.Permission),
        (Domain perm <> "" ->
         SharedWithDomain (permissionToRecord file perm) = Domain perm) /\
        (Domain perm = "" -> EmailAddress perm <> "" ->
         SharedWithDomain (permissionToRecord file perm)
         = ExtractDomain (EmailAddress perm) /\
         forall local dom : string,
           EmailAddress perm = (local ++ "@" ++ dom)%string ->
           contains_byte "@" dom = false ->
           SharedWithDomain (permissionToRecord file perm) = dom) /\
        (Domain perm = "" -> EmailAddress perm = "" ->
         SharedWithDomain (permissionToRecord file perm) = "")) /\
    (forall (fuel : nat) (a : Auditor) (w w' : W)
            (res : AuditResult) (e : option error),
        AuditExternalSharing fuel a w = Some ((Some res, e), w') ->
        forall s : ExternalShareRecord,
          In s (ExternalShares res) ->
          exists (file : FileInfo) (perm : drive.Permission),
            IsExternalShare (driveClient a) perm = true /\
            s = permissionToRecord file perm).
Proof.
  intros W API CTX. split.
  - intros file perm. unfold permissionToRecord. cbn [SharedWithDomain].
    split; [|split].
    + intros H. apply String.eqb_neq in H. now rewrite H.
    + intros -> He. cbn. apply str_ne_true in He. rewrite He.
      split; [reflexivity|].
      intros local dom -> Hdom. now apply ExtractDomain_split.
    + intros -> ->. reflexivity.
  - intros fuel a w w' res e H s Hs.
    destruct (AuditExternalSharing_shares fuel a w w' res e H)
      as (files & w1 & _ & HF).
    rewrite Forall_forall in HF.
    destruct (HF s Hs) as (f & p & _ & Hext & ->). eauto.
Qed.

(** C10. Whenever the external-sharing audit returns a result and no
    error, the counts of the result agree with its lists:
    [TotalExternalShares] is the number of external shares, [TotalFiles] the
    number of files the listing returned, and [FilesProcessed] plus the
    number of errors is [TotalFiles].  (The last equation needs the number
    of files to fit in an [int], as the length of every Go slice does:
    [FilesProcessed] is a 64-bit counter.) *)
Theorem audit_counts_are_consistent :
  forall (W : Type) (API : DriveAPI W) (CTX : api.Context W)
         (fuel : nat) (a : Auditor) (w w' : W) (res : AuditResult),
    AuditExternalSharing fuel a w = Some ((Some res, None), w') ->
    exists (files : list FileInfo) (w1 : W),
      ListAllFiles fuel (driveClient a) w = Some ((files, None), w1) /\
      TotalExternalShares res = len (ExternalShares res) /\
      TotalFiles res = len files /\
      (len files <= MaxInt ->
       FilesProcessed res + len (Errors res) = TotalFiles res).
Proof.
  intros W API CTX fuel a w w' res H.
  apply AuditExternalSharing_inv in H.
  destruct H as (files & w1 & r' & HL & HS & ->).
  exists files, w1. split; [assumption|].
  apply sharing_loop_inv in HS.
  destruct HS as (HT & _ & _ & _ & (errs & k & HE & _ & Hn & HP)).
  cbn in HT, HE, HP. cbn.
  split; [reflexivity|]. split; [assumption|].
  intros Hmax. unfold len in *.
  rewrite HP by (unfold MaxInt in *; lia).
  rewrite HT, HE. specialize (Hn eq_refl). lia.
Qed.

Lemma audit_counts_are_consistent_witness :
  exists (res : AuditResult) (w' : mock.World),
    AuditExternalSharing 2 example.a example.world = Some ((Some res, None), w') /\
    TotalFiles res = 3 /\
    FilesProcessed res = 2 /\
    len (Errors res) = 1 /\
    TotalExternalShares res = 2 /\
    exists (files : list FileInfo) (w1 : mock.World),
      ListAllFiles 2 example.c example.world = Some ((files, None), w1) /\
      TotalExternalShares res = len (ExternalShares res) /\
      TotalFiles res = len files /\
      (len files <= MaxInt ->
       FilesProcessed res + len (Errors res) = TotalFiles res).
Proof.
  do 2 eexists.
  match goal with
  | |- ?A /\ _ => assert (H : A) by (cbv; reflexivity)
  end.
  split; [exact H|]. do 4 (split; [reflexivity|]).
  exact (audit_counts_are_consistent _ _ _ _ _ _ _ _ H).
Defined.

(** ** Cancellation *)

Lemma checked_mono (need : nat) (l : list mock.Event) :
  forall n m : nat,
    (n <= m)%nat -> mock.checked need n l = true -> mock.checked need m l = true.
Proof.
  induction l as [|ev l IH]; intros n m Hle H; [reflexivity|].
  destruct ev as [|opts|fileID opts]; cbn [mock.checked] in *.
  - apply (IH (S n)); [lia | assumption].
  - apply andb_true_iff in H. destruct H as [H1 H2].
    apply andb_true_iff. split; [|assumption].
    apply Nat.leb_le in H1. apply Nat.leb_le. lia.
  - apply andb_true_iff in H. destruct H as [H1 H2].
    apply andb_true_iff. split; [|assumption].
    apply Nat.leb_le in H1. apply Nat.leb_le. lia.
Qed.

Lemma checked_app (need : nat) (l1 l2 : list mock.Event) :
  forall n : nat,
    mock.checked need n l1 = true ->
    mock.checked need 0 l2 = true ->
    mock.checked need n (l1 ++ l2) = true.
Proof.
  induction l1 as [|ev l1 IH]; intros n H1 H2.
  - cbn [app]. apply (checked_mono need l2 0 n); [lia | assumption].
  - destruct ev as [|opts|fileID opts]; cbn [mock.checked app] in *.
    + now apply IH.
    + apply andb_true_iff in H1. destruct H1 as [Ha Hb].
      rewrite Ha. cbn. now apply IH.
    + apply andb_true_iff in H1. destruct H1 as [Ha Hb].
      rewrite Ha. cbn. now apply IH.
Qed.

Lemma files_loop_trace (need : nat) (c : Client) (fuel : nat) :
  forall (acc : list FileInfo) (tok : string) (w : mock.World) res (w' : mock.World),
    ListAllFiles_loop fuel c acc tok w = Some (res, w') ->
    exists evs : list mock.Event,
      mock.log w' = mock.log w ++ evs /\ mock.checked need 0 evs = true.
Proof.
  induction fuel as [|fuel IH]; intros acc tok w res w' H; [discriminate|].
  cbn [ListAllFiles_loop ctx_poll mock.mockContext ListFiles mock.mockAPI] in H.
  destruct (mock.poll w) as [[e|] w1] eqn:Ep.
  - injection H as <- <-. exists [mock.Polled]. split; [|reflexivity].
    unfold mock.poll in Ep. destruct (mock.polls_left w) as [[|n]|];
      inversion Ep; reflexivity.
  - assert (Hw1 : mock.log w1 = mock.log w ++ [mock.Polled]).
    { unfold mock.poll in Ep. destruct (mock.polls_left w) as [[|n]|];
        inversion Ep; reflexivity. }
    destruct (mock.listFiles (listFilesOptions c tok) w1) as [[r|err] w2] eqn:El.
    + assert (Hw2 : mock.log w2
                    = mock.log w1 ++ [mock.FilesCalled (listFilesOptions c tok)]).
      { unfold mock.listFiles in El. destruct (mock.files_script w1);
          inversion El; reflexivity. }
      destruct (String.eqb (FilesNextPageToken r) "").
      * injection H as <- <-.
        exists [mock.Polled; mock.FilesCalled (listFilesOptions c tok)].
        split; [|reflexivity]. rewrite Hw2, Hw1, <- app_assoc. reflexivity.
      * apply IH in H. destruct H as (evs & Hlog & Hc).
        exists (mock.Polled :: mock.FilesCalled (listFilesOptions c tok) :: evs).
        split; [|exact Hc]. rewrite Hlog, Hw2, Hw1, <- !app_assoc. reflexivity.
    + assert (Hw2 : mock.log w2
                    = mock.log w1 ++ [mock.FilesCalled (listFilesOptions c tok)]).
      { unfold mock.listFiles in El. destruct (mock.files_script w1);
          inversion El; reflexivity. }
      injection H as <- <-.
      exists [mock.Polled; mock.FilesCalled (listFilesOptions c tok)].
      split; [|reflexivity]. rewrite Hw2, Hw1, <- app_assoc. reflexivity.
Qed.

Lemma poll_log (w w1 : mock.World) (o : option error) :
  mock.poll w = (o, w1) -> mock.log w1 = mock.log w ++ [mock.Polled].
Proof.
  unfold mock.poll. destruct (mock.polls_left w) as [[|n]|];
    intros H; inversion H; reflexivity.
Qed.

Lemma listPermissions_log (fileID : string) (opts : ListPermissionsOptions)
  (w w1 : mock.World) (r : ListPermissionsResult + error) :
  mock.listPermissions fileID opts w = (r, w1) ->
  mock.log w1 = mock.log w ++ [mock.PermsCalled fileID opts].
Proof.
  unfold mock.listPermissions. destruct (mock.perms_script w);
    intros H; inversion H; reflexivity.
Qed.

Lemma perms_loop_trace (need : nat) (c : Client) (fileID : string) (fuel : nat) :
  forall (acc : list drive.Permission) (tok : string) (w : mock.World)
         res (w' : mock.World) (n : nat),
    GetFilePermissions_loop fuel c fileID acc tok w = Some (res, w') ->
    (tok = "" -> (need <= S n)%nat) ->
    exists evs : list mock.Event,
      mock.log w' = mock.log w ++ evs /\ mock.checked need n evs = true.
Proof.
  induction fuel as [|fuel IH]; intros acc tok w res w' n H Hneed; [discriminate|].
  cbn [GetFilePermissions_loop ctx_poll mock.mockContext
       ListPermissions mock.mockAPI] in H.
  destruct (mock.poll w) as [[e|] w1] eqn:Ep.
  - injection H as <- <-. exists [mock.Polled]. split; [|reflexivity].
    apply (poll_log _ _ _ Ep).
  - pose proof (poll_log _ _ _ Ep) as Hw1.
    destruct (mock.listPermissions fileID (listPermissionsOptions c tok) w1)
      as [r w2] eqn:El.
    pose proof (listPermissions_log _ _ _ _ _ El) as Hw2.
    assert (Hcall :
              forall evs, mock.checked need 0 evs = true ->
                mock.checked need n
                  (mock.Polled ::
                   mock.PermsCalled fileID (listPermissionsOptions c tok) :: evs)
                = true).
    { intros evs Hevs. cbn [mock.checked listPermissionsOptions PermsPageToken].
      rewrite Hevs, andb_true_r. apply Nat.leb_le.
      destruct (String.eqb tok "") eqn:Et.
      - apply String.eqb_eq in Et. auto.
      - lia. }
    destruct r as [r|err].
    + destruct (String.eqb (PermsNextPageToken r) "") eqn:Etok.
      * injection H as <- <-.
        exists [mock.Polled; mock.PermsCalled fileID (listPermissionsOptions c tok)].
        split; [|now apply Hcall]. rewrite Hw2, Hw1, <- app_assoc. reflexivity.
      * apply (IH _ _ _ _ _ O) in H.
        -- destruct H as (evs & Hlog & Hc).
           exists (mock.Polled ::
                   mock.PermsCalled fileID (listPermissionsOptions c tok) :: evs).
           split; [|now apply Hcall].
           rewrite Hlog, Hw2, Hw1, <- !app_assoc. reflexivity.
        -- intros Heq. rewrite Heq in Etok. discriminate.
    + injection H as <- <-.
      exists [mock.Polled; mock.PermsCalled fileID (listPermissionsOptions c tok)].
      split; [|now apply Hcall]. rewrite Hw2, Hw1, <- app_assoc. reflexivity.
Qed.

Lemma sharing_loop_trace (c : Client) (fuel : nat) (files : list FileInfo) :
  forall (r : AuditResult) (w : mock.World) res (w' : mock.World),
    sharing_loop fuel c files r w = Some (res, w') ->
    exists evs : list mock.Event,
      mock.log w' = mock.log w ++ evs /\ mock.checked 2 0 evs = true.
Proof.
  induction files as [|f files IH]; intros r w res w' H.
  - injection H as <- <-. exists []. split; [now rewrite app_nil_r | reflexivity].
  - cbn [sharing_loop ctx_poll mock.mockContext] in H.
    destruct (mock.poll w) as [[e|] w1] eqn:Ep.
    + injection H as <- <-. exists [mock.Polled]. split; [|reflexivity].
      apply (poll_log _ _ _ Ep).
    + pose proof (poll_log _ _ _ Ep) as Hw1.
      destruct (GetFilePermissions fuel c (ID f) w1) as [[[perms err] w2]|] eqn:Eg;
        [|discriminate].
      unfold GetFilePermissions in Eg.
      apply (perms_loop_trace 2 c (ID f) fuel _ _ _ _ _ 1%nat) in Eg; [|lia].
      destruct Eg as (evs1 & Hlog1 & Hc1).
      assert (Hrest : exists evs2, mock.log w' = mock.log w2 ++ evs2 /\
                                   mock.checked 2 0 evs2 = true).
      { destruct err; eapply IH; exact H. }
      destruct Hrest as (evs2 & Hlog2 & Hc2).
      exists (mock.Polled :: evs1 ++ evs2). split.
      * rewrite Hlog2, Hlog1, Hw1, <- !app_assoc. reflexivity.
      * cbn [mock.checked]. now apply checked_app.
Qed.

Lemma audit_trace (fuel : nat) (a : Auditor) (w : mock.World) res (w' : mock.World) :
  AuditExternalSharing fuel a w = Some (res, w') ->
  exists evs : list mock.Event,
    mock.log w' = mock.log w ++ evs /\ mock.checked 2 0 evs = true.
Proof.
  unfold AuditExternalSharing. intros H.
  destruct (ListAllFiles fuel (driveClient a) w) as [[[files err] w1]|] eqn:EL;
    [|discriminate].
  unfold ListAllFiles in EL. apply (files_loop_trace 2) in EL.
  destruct EL as (evs1 & Hlog1 & Hc1).
  destruct err as [err|].
  - injection H as <- <-. exists evs1. auto.
  - match type of H with
    | match ?x with _ => _ end = _ => destruct x as [[[r' e'] w2]|] eqn:ES
    end; [|discriminate].
    apply sharing_loop_trace in ES. destruct ES as (evs2 & Hlog2 & Hc2).
    exists (evs1 ++ evs2). split.
    + destruct e'; injection H as <- <-; rewrite Hlog2, Hlog1, <- app_assoc;
        reflexivity.
    + now apply checked_app.
Qed.

Lemma files_cancel_mock (c : Client) (cerr : error)
  (extra : list (ListFilesResult + error))
  (perms : list (ListPermissionsResult + error))
  (pre : list ListFilesResult) :
  Forall (fun r => FilesNextPageToken r <> "") pre ->
  forall (fuel : nat) (acc : list FileInfo) (tok : string) (log0 : list mock.Event),
    (List.length pre < fuel)%nat ->
    exists w' : mock.World,
      ListAllFiles_loop fuel c acc tok
        (mock.mkWorld (Some (List.length pre)) cerr (map inl pre ++ extra) perms log0)
      = Some ((acc ++ filesOfPages pre, Some cerr), w') /\
      mock.files_script w' = extra.
Proof.
  induction 1 as [|r pre Hr Hpre IH]; intros fuel acc tok log0 Hfuel;
    (destruct fuel as [|fuel]; [simpl in Hfuel; lia|]).
  - eexists. cbn. rewrite app_nil_r. split; reflexivity.
  - cbn [ListAllFiles_loop ctx_poll mock.mockContext mock.poll mock.polls_left
         ListFiles mock.mockAPI mock.listFiles mock.files_script mock.log
         mock.cancel_err mock.perms_script map app List.length].
    apply String.eqb_neq in Hr. rewrite Hr.
    destruct (IH fuel (appendFiles acc (Files r)) (FilesNextPageToken r)
                ((log0 ++ [mock.Polled]) ++ [mock.FilesCalled (listFilesOptions c tok)]))
      as (w' & Hrun & Hscript); [simpl in Hfuel; lia|].
    exists w'. rewrite Hrun. split; [|assumption].
    rewrite appendFiles_app. unfold filesOfPages. cbn [flat_map].
    now rewrite <- app_assoc.
Qed.

Lemma perms_cancel_mock (c : Client) (fileID : string) (cerr : error)
  (files : list (ListFilesResult + error))
  (extra : list (ListPermissionsResult + error))
  (pre : list ListPermissionsResult) :
  Forall (fun r => PermsNextPageToken r <> "") pre ->
  forall (fuel : nat) (acc : list drive.Permission) (tok : string)
         (log0 : list mock.Event),
    (List.length pre < fuel)%nat ->
    exists w' : mock.World,
      GetFilePermissions_loop fuel c fileID acc tok
        (mock.mkWorld (Some (List.length pre)) cerr files (map inl pre ++ extra) log0)
      = Some ((acc ++ permsOfPages pre, Some cerr), w') /\
      mock.perms_script w' = extra.
Proof.
  induction 1 as [|r pre Hr Hpre IH]; intros fuel acc tok log0 Hfuel;
    (destruct fuel as [|fuel]; [simpl in Hfuel; lia|]).
  - eexists. cbn. rewrite app_nil_r. split; reflexivity.
  - cbn [GetFilePermissions_loop ctx_poll mock.mockContext mock.poll
         mock.polls_left ListPermissions mock.mockAPI mock.listPermissions
         mock.files_script mock.log mock.cancel_err mock.perms_script map app
         List.length].
    apply String.eqb_neq in Hr. rewrite Hr.
    destruct (IH fuel (appendPerms acc (Permissions r)) (PermsNextPageToken r)
                ((log0 ++ [mock.Polled]) ++
                 [mock.PermsCalled fileID (listPermissionsOptions c tok)]))
      as (w' & Hrun & Hscript); [simpl in Hfuel; lia|].
    exists w'. rewrite Hrun. split; [|assumption].
    rewrite appendPerms_app. unfold permsOfPages. cbn [flat_map].
    now rewrite <- app_assoc.
Qed.

(** C5. Cancellation is checked before each page fetch of both
    aggregators and before each file's permission fetch of the audit, and a
    cancellation seen at such a check returns what was accumulated together
    with the context's error:
    - at any iteration of either pagination loop, a poll that reports
      cancellation makes the aggregator return the accumulator as it stands;
    - in the audit, when the files [done] were handled and the poll before
      the next file reports cancellation, [AuditExternalSharing] returns the
      result as filled by [done], not [nil];
    - on the scripted double, a context cancelled after [k] polls, with [k]
      pages served, yields the items of those [k] pages and the error;
    - every listing request recorded by the double comes directly after a
      poll, and in a run of the audit each request for the first page of a
      file's permissions comes after two: the audit's and the aggregator's. *)
Theorem cancellation_keeps_partial_results :
  forall (W : Type) (API : DriveAPI W) (CTX : api.Context W)
         (c : Client) (a : Auditor),
    (forall (fuel : nat) (acc : list FileInfo) (tok : string) (w w1 : W) (e : error),
        ctx_poll w = (Some e, w1) ->
        ListAllFiles_loop (S fuel) c acc tok w = Some ((acc, Some e), w1)) /\
    (forall (fuel : nat) (fileID : string) (acc : list drive.Permission)
            (tok : string) (w w1 : W) (e : error),
        ctx_poll w = (Some e, w1) ->
        GetFilePermissions_loop (S fuel) c fileID acc tok w
        = Some ((acc, Some e), w1)) /\
    (forall (fuel : nat) (done : list FileInfo) (file : FileInfo)
            (rest : list FileInfo) (r : AuditResult) (w0 w1 w2 w3 : W) (e : error),
        ListAllFiles fuel (driveClient a) w0
        = Some ((done ++ file :: rest, None), w1) ->
        sharing_loop fuel (driveClient a) done
          (initialResult (done ++ file :: rest)) w1 = Some ((r, None), w2) ->
        ctx_poll w2 = (Some e, w3) ->
        AuditExternalSharing fuel a w0 = Some ((Some r, Some e), w3)) /\
    (forall (cerr : error) (fileID : string)
            (fpre : list ListFilesResult) (fextra : list (ListFilesResult + error))
            (ppre : list ListPermissionsResult)
            (pextra : list (ListPermissionsResult + error))
            (log0 : list mock.Event) (fuel : nat),
        Forall (fun r => FilesNextPageToken r <> "") fpre ->
        Forall (fun r => PermsNextPageToken r <> "") ppre ->
        (List.length fpre < fuel)%nat ->
        (List.length ppre < fuel)%nat ->
        (exists w' : mock.World,
            ListAllFiles fuel c
              (mock.mkWorld (Some (List.length fpre)) cerr
                 (map inl fpre ++ fextra) (map inl ppre ++ pextra) log0)
            = Some ((filesOfPages fpre, Some cerr), w')) /\
        (exists w' : mock.World,
            GetFilePermissions fuel c fileID
              (mock.mkWorld (Some (List.length ppre)) cerr
                 (map inl fpre ++ fextra) (map inl ppre ++ pextra) log0)
            = Some ((permsOfPages ppre, Some cerr), w'))) /\
    (forall (fuel : nat) (fileID : string) (w w' : mock.World),
        (forall res, ListAllFiles fuel c w = Some (res, w') ->
                     exists evs, mock.log w' = mock.log w ++ evs /\
                                 mock.checked 1 0 evs = true) /\
        (forall res, GetFilePermissions fuel c fileID w = Some (res, w') ->
                     exists evs, mock.log w' = mock.log w ++ evs /\
                                 mock.checked 1 0 evs = true) /\
        (forall res, AuditExternalSharing fuel a w = Some (res, w') ->
                     exists evs, mock.log w' = mock.log w ++ evs /\
                                 mock.checked 2 0 evs = true)).
Proof.
  intros W API CTX c a. split; [|split; [|split; [|split]]].
  - intros fuel acc tok w w1 e H. cbn [ListAllFiles_loop]. now rewrite H.
  - intros fuel fileID acc tok w w1 e H. cbn [GetFilePermissions_loop].
    now rewrite H.
  - intros fuel done file rest r w0 w1 w2 w3 e HL HS Hpoll.
    unfold AuditExternalSharing. rewrite HL.
    fold (initialResult (done ++ file :: rest)).
    rewrite sharing_loop_app, HS. cbn [sharing_loop]. now rewrite Hpoll.
  - intros cerr fileID fpre fextra ppre pextra log0 fuel Hf Hp Hfuel1 Hfuel2.
    split.
    + destruct (files_cancel_mock c cerr fextra (map inl ppre ++ pextra) fpre Hf
                  fuel [] "" log0 Hfuel1) as (w' & H & _).
      exists w'. exact H.
    + destruct (perms_cancel_mock c fileID cerr (map inl fpre ++ fextra) pextra
                  ppre Hp fuel [] "" log0 Hfuel2) as (w' & H & _).
      exists w'. exact H.
  - intros fuel fileID w w'. split; [|split].
    + intros res H. apply (files_loop_trace 1 c fuel _ _ _ _ _ H).
    + intros res H.
      apply (perms_loop_trace 1 c fileID fuel _ _ _ _ _ O H). intros _. lia.
    + intros res H. apply (audit_trace fuel a w res w' H).
Qed.

(** The run of the example under a context cancelled after four polls:
    the listing (two polls) and the first file (two polls) go through, the
    poll before the second file reports the cancellation. *)
Lemma cancellation_keeps_partial_results_witness :
  exists (r : AuditResult) (w3 : mock.World),
    AuditExternalSharing 2 example.a (example.world_cancelled_after 4)
    = Some ((Some r, Some Canceled), w3) /\
    FilesProcessed r = 1 /\
    TotalFiles r = 3 /\
    List.length (ExternalShares r) = 1%nat.
Proof.
  destruct (cancellation_keeps_partial_results mock.World _ _ example.c example.a)
    as (_ & _ & Haudit & _).
  do 2 eexists. split.
  - eapply (Haudit 2%nat (map fileInfoOf [example.f1]) (fileInfoOf example.f2)
              (map fileInfoOf [example.f3])); cbv; reflexivity.
  - repeat split.
Defined.

(** ** The report sink *)

(** *** Bytewise order on strings *)

Lemma ascii_compare_refl (x : ascii) : Ascii.compare x x = Eq.
Proof. unfold Ascii.compare. apply N.compare_refl. Qed.

Lemma ascii_compare_lt_trans (x y z : ascii) :
  Ascii.compare x y = Lt -> Ascii.compare y z = Lt -> Ascii.compare x z = Lt.
Proof.
  unfold Ascii.compare. rewrite !N.compare_lt_iff. apply N.lt_trans.
Qed.

Lemma string_compare_refl (a : string) : String.compare a a = Eq.
Proof.
  induction a as [|x a IH]; simpl; [reflexivity|].
  now rewrite ascii_compare_refl.
Qed.

Lemma string_compare_lt_trans (a : string) :
  forall b c : string,
    String.compare a b = Lt -> String.compare b c = Lt -> String.compare a c = Lt.
Proof.
  induction a as [|x a IH]; intros [|y b] [|z c]; simpl;
    try discriminate; try reflexivity.
  destruct (Ascii.compare x y) eqn:Exy; try discriminate;
    destruct (Ascii.compare y z) eqn:Eyz; try discriminate; intros H1 H2.
  - apply Ascii.compare_eq_iff in Exy, Eyz. subst.
    rewrite ascii_compare_refl. eauto.
  - apply Ascii.compare_eq_iff in Exy. subst. now rewrite Eyz.
  - apply Ascii.compare_eq_iff in Eyz. subst. now rewrite Exy.
  - now rewrite (ascii_compare_lt_trans x y z).
Qed.

Lemma str_lt_irrefl (a : string) : str_lt a a = false.
Proof. unfold str_lt, String.ltb. now rewrite string_compare_refl. Qed.

Lemma str_lt_trans (a b c : string) :
  str_lt a b = true -> str_lt b c = true -> str_lt a c = true.
Proof.
  unfold str_lt, String.ltb.
  destruct (String.compare a b) eqn:E1; try discriminate.
  destruct (String.compare b c) eqn:E2; try discriminate.
  now rewrite (string_compare_lt_trans a b c).
Qed.

Lemma str_lt_total (a b : string) :
  str_lt a b = false -> str_lt b a = false -> a = b.
Proof.
  unfold str_lt, String.ltb. rewrite (String.compare_antisym b a).
  destruct (String.compare a b) eqn:E; simpl; try discriminate.
  intros _ _. now apply String.compare_eq_iff.
Qed.

Lemma str_lt_asym (a b : string) : str_lt a b = true -> str_lt b a = false.
Proof.
  intros H. destruct (str_lt b a) eqn:E; [|reflexivity].
  pose proof (str_lt_trans a b a H E) as Haa.
  rewrite str_lt_irrefl in Haa. discriminate.
Qed.

(** *** The comparison of the writers *)

Lemma key_lt_incomparable (k1 k2 : string * string) :
  key_lt k1 k2 = false -> key_lt k2 k1 = false -> k1 = k2.
Proof.
  destruct k1 as [o1 n1], k2 as [o2 n2]. unfold key_lt, str_ne. cbn [fst snd].
  rewrite (String.eqb_sym o2 o1).
  destruct (String.eqb o1 o2) eqn:E; cbn [negb]; intros H1 H2.
  - apply String.eqb_eq in E. subst. f_equal. now apply str_lt_total.
  - apply String.eqb_neq in E. exfalso. apply E. now apply str_lt_total.
Qed.

Lemma key_lt_strict_weak_order : reporter.strict_weak_order key_lt.
Proof.
  split; [|split].
  - intros [o n]. unfold key_lt, str_ne. cbn [fst snd].
    rewrite String.eqb_refl. apply str_lt_irrefl.
  - intros [o1 n1] [o2 n2] [o3 n3]. unfold key_lt, str_ne. cbn [fst snd].
    destruct (String.eqb o1 o2) eqn:E12; cbn [negb];
      destruct (String.eqb o2 o3) eqn:E23; cbn [negb];
      try (apply String.eqb_eq in E12; subst o2);
      try (apply String.eqb_eq in E23; subst o3).
    + rewrite String.eqb_refl. cbn [negb]. apply str_lt_trans.
    + rewrite E23. cbn [negb]. auto.
    + rewrite E12. cbn [negb]. auto.
    + intros H1 H2. pose proof (str_lt_trans _ _ _ H1 H2) as H13.
      destruct (String.eqb o1 o3) eqn:E13; cbn [negb]; [|assumption].
      apply String.eqb_eq in E13. subst o3.
      rewrite str_lt_irrefl in H13. discriminate.
  - intros a b c Hab Hba Hbc Hcb.
    pose proof (key_lt_incomparable a b Hab Hba).
    pose proof (key_lt_incomparable b c Hbc Hcb). subst. auto.
Qed.

Lemma key_lt_false_le (k1 k2 : string * string) :
  key_lt k2 k1 = false -> key_le k1 k2.
Proof.
  destruct k1 as [o1 n1], k2 as [o2 n2]. unfold key_lt, key_le, str_ne.
  cbn [fst snd]. destruct (String.eqb o2 o1) eqn:E; cbn [negb]; intros H.
  - apply String.eqb_eq in E. subst o2. right. split; [reflexivity|].
    unfold reporter.str_le. destruct (str_lt n1 n2) eqn:E1; [now left|].
    right. now apply str_lt_total.
  - left. destruct (str_lt o1 o2) eqn:E1; [reflexivity|].
    apply String.eqb_neq in E. exfalso. apply E. now apply str_lt_total.
Qed.

Lemma strict_weak_order_by_key {A : Type} (key : A -> string * string) :
  reporter.strict_weak_order (fun a b => key_lt (key a) (key b)).
Proof.
  destruct key_lt_strict_weak_order as (Hi & Ht & Hc).
  split; [|split].
  - intros a. apply Hi.
  - intros a b c. apply Ht.
  - intros a b c. apply Hc.
Qed.

Lemma lessFileRecord_swo : reporter.strict_weak_order reporter.lessFileRecord.
Proof. exact (strict_weak_order_by_key fileKey). Qed.

Lemma lessShareRecord_swo : reporter.strict_weak_order reporter.lessShareRecord.
Proof. exact (strict_weak_order_by_key shareKey). Qed.

(** *** Insertion sort meets the contract of [sort.Slice] *)

Lemma insert_by_perm {A : Type} (less : A -> A -> bool) (a : A) (l : list A) :
  Permutation (a :: l) (reporter.insert_by less a l).
Proof.
  induction l as [|b l IH]; simpl; [reflexivity|].
  destruct (less a b); [reflexivity|].
  rewrite perm_swap. now constructor.
Qed.

Lemma insert_by_sorted {A : Type} (less : A -> A -> bool) (a : A) (l : list A) :
  reporter.strict_weak_order less ->
  StronglySorted (fun x y => less y x = false) l ->
  StronglySorted (fun x y => less y x = false) (reporter.insert_by less a l).
Proof.
  intros (Hirr & Htr & _) Hs.
  induction Hs as [|b l Hs IH Hb]; simpl.
  - constructor; constructor.
  - destruct (less a b) eqn:E.
    + constructor; [constructor; assumption|].
      constructor.
      * destruct (less b a) eqn:E'; [|reflexivity].
        pose proof (Htr a b a E E') as Haa. rewrite Hirr in Haa. discriminate.
      * rewrite Forall_forall in *. intros z Hz.
        destruct (less z a) eqn:E'; [|reflexivity].
        pose proof (Htr z a b E' E) as Hzb. rewrite (Hb z Hz) in Hzb. discriminate.
    + constructor; [assumption|].
      rewrite Forall_forall in *. intros z Hz.
      apply (Permutation_in _ (Permutation_sym (insert_by_perm less a l))) in Hz.
      destruct Hz as [<- | Hz]; [assumption | now apply Hb].
Qed.

Lemma insertion_sort_sorts : reporter.sorts reporter.insertion_sort.
Proof.
  intros A less x Hswo. unfold reporter.insertion_sort.
  induction x as [|a x [IHp IHs]]; simpl.
  - split; constructor.
  - split.
    + rewrite <- insert_by_perm. now constructor.
    + now apply insert_by_sorted.
Qed.

(** *** What reaches the sink *)

Lemma Create_spec (path : string) (s s1 : reporter.Sink) (e : option error) :
  reporter.Create path s = (e, s1) ->
  reporter.rows s1 = reporter.rows s /\
  (reporter.faults s = [] -> e = None /\ reporter.faults s1 = []).
Proof.
  unfold reporter.Create, reporter.next_fault.
  destruct (reporter.faults s) as [|[e0|] rest]; intros H; injection H as <- <-;
    cbn; split; auto; discriminate.
Qed.

Lemma Write_spec (row : list string) (s s1 : reporter.Sink) (e : option error) :
  reporter.Write row s = (e, s1) ->
  reporter.rows s1
  = reporter.rows s ++ match e with Some _ => [] | None => [row] end /\
  (reporter.faults s = [] -> e = None /\ reporter.faults s1 = []).
Proof.
  unfold reporter.Write, reporter.next_fault.
  destruct (reporter.faults s) as [|[e0|] rest]; intros H; injection H as <- <-;
    cbn; rewrite ?app_nil_r; split; auto; discriminate.
Qed.

Lemma Flush_spec (s s1 : reporter.Sink) (e : option error) :
  reporter.Flush s = (e, s1) ->
  reporter.rows s1 = reporter.rows s /\
  (reporter.faults s = [] -> e = None /\ reporter.faults s1 = []).
Proof.
  unfold reporter.Flush, reporter.next_fault.
  destruct (reporter.faults s) as [|e0 rest]; intros H; injection H as <- <-;
    cbn; split; auto; discriminate.
Qed.

Lemma deferred_close_spec (s s' : reporter.Sink) (err err' : option error) :
  reporter.deferred_close (err, s) = (err', s') ->
  reporter.rows s' = reporter.rows s /\
  (err' = None -> err = None) /\
  (reporter.faults s = [] -> err' = err).
Proof.
  unfold reporter.deferred_close, reporter.Close, reporter.next_fault.
  destruct (reporter.faults s) as [|[e0|] rest]; destruct err as [e|];
    intros H; injection H as <- <-; cbn; repeat split; auto; discriminate.
Qed.

Lemma writeRecords_spec {A : Type} (row : A -> list string) (records : list A) :
  forall (s s' : reporter.Sink) (err : option error),
    reporter.writeRecords row records s = (err, s') ->
    exists k : nat,
      reporter.rows s' = reporter.rows s ++ firstn k (map row records) /\
      (err = None -> firstn k (map row records) = map row records) /\
      (reporter.faults s = [] -> err = None /\ reporter.faults s' = []).
Proof.
  induction records as [|rec records IH]; intros s s' err H.
  - injection H as <- <-. exists O. cbn. rewrite app_nil_r. auto.
  - cbn [reporter.writeRecords] in H.
    destruct (reporter.Write (row rec) s) as [[e|] s1] eqn:Ew;
      apply Write_spec in Ew; destruct Ew as [Hrows Hnf].
    + injection H as <- <-. exists O. cbn in *. rewrite app_nil_r in *.
      split; [assumption|]. split; [discriminate|].
      intros Hf. destruct (Hnf Hf) as [? _]. discriminate.
    + apply IH in H. destruct H as (k & Hk & Hall & Hnf2).
      exists (S k). cbn [map firstn]. rewrite Hk, Hrows, <- app_assoc.
      repeat split.
      * intros He. now rewrite (Hall He).
      * apply Hnf2. now apply Hnf.
      * apply Hnf2. now apply Hnf.
Qed.

Lemma writeCSV_rows {A : Type} (path : string) (header : list string)
  (row : A -> list string) (records : list A)
  (s s' : reporter.Sink) (err : option error) :
  reporter.writeCSV path header row records s = (err, s') ->
  exists written : list (list string),
    reporter.rows s' = reporter.rows s ++ written /\
    (written = [] \/ exists k, written = header :: firstn k (map row records)) /\
    (err = None -> written = header :: map row records) /\
    (reporter.faults s = [] -> err = None).
Proof.
  unfold reporter.writeCSV.
  destruct (reporter.Create path s) as [[e|] s1] eqn:Ec;
    apply Create_spec in Ec; destruct Ec as [Hr1 Hf1].
  { intros H. injection H as <- <-. exists []. rewrite app_nil_r.
    repeat split; auto; try discriminate.
    intros Hf. destruct (Hf1 Hf) as [? _]. discriminate. }
  destruct (reporter.Write header s1) as [[e|] s2] eqn:Eh;
    apply Write_spec in Eh; destruct Eh as [Hr2 Hf2].
  { intros H. apply deferred_close_spec in H. destruct H as (Hr & Hnone & _).
    exists []. rewrite Hr, Hr2, Hr1.
    repeat split; auto.
    - intros He. specialize (Hnone He). discriminate.
    - intros Hf. destruct (Hf1 Hf) as [_ Hg1]. destruct (Hf2 Hg1) as [? _].
      discriminate. }
  destruct (reporter.writeRecords row records s2) as [[e|] s3] eqn:Ew;
    apply writeRecords_spec in Ew; destruct Ew as (k & Hr3 & Hall & Hf3).
  { intros H. apply deferred_close_spec in H. destruct H as (Hr & Hnone & _).
    exists (header :: firstn k (map row records)).
    rewrite Hr, Hr3, Hr2, Hr1, <- app_assoc.
    repeat split; eauto.
    - intros He. specialize (Hnone He). discriminate.
    - intros Hf. destruct (Hf1 Hf) as [_ Hg1]. destruct (Hf2 Hg1) as [_ Hg2].
      destruct (Hf3 Hg2) as [? _]. discriminate. }
  destruct (reporter.Flush s3) as [[e|] s4] eqn:Efl;
    apply Flush_spec in Efl; destruct Efl as [Hr4 Hf4].
  { intros H. apply deferred_close_spec in H. destruct H as (Hr & Hnone & _).
    exists (header :: firstn k (map row records)).
    rewrite Hr, Hr4, Hr3, Hr2, Hr1, <- app_assoc.
    repeat split; eauto.
    - intros He. specialize (Hnone He). discriminate.
    - intros Hf. destruct (Hf1 Hf) as [_ Hg1]. destruct (Hf2 Hg1) as [_ Hg2].
      destruct (Hf3 Hg2) as [_ Hg3]. destruct (Hf4 Hg3) as [? _].
      discriminate. }
  intros H. apply deferred_close_spec in H. destruct H as (Hr & _ & Hsame).
  exists (header :: map row records).
  rewrite Hr, Hr4, Hr3, Hr2, Hr1, (Hall eq_refl), <- app_assoc.
  repeat split; auto.
  - right. exists (List.length records).
    now rewrite firstn_all2 by (rewrite length_map; lia).
  - intros Hf. destruct (Hf1 Hf) as [_ Hg1]. destruct (Hf2 Hg1) as [_ Hg2].
    destruct (Hf3 Hg2) as [_ Hg3]. destruct (Hf4 Hg3) as [_ Hg4].
    now rewrite (Hsame Hg4).
Qed.

Lemma StronglySorted_map {A B : Type} (R : A -> A -> Prop) (R' : B -> B -> Prop)
  (f : A -> B) (l : list A) :
  (forall a b, R a b -> R' (f a) (f b)) ->
  StronglySorted R l -> StronglySorted R' (map f l).
Proof.
  intros Himp Hs. induction Hs as [|a l Hs IH Ha]; simpl; constructor.
  - assumption.
  - rewrite Forall_forall in *. intros y Hy. apply in_map_iff in Hy.
    destruct Hy as (b & <- & Hb). auto.
Qed.

Lemma fileRow_le (Format : time.Time -> string -> string)
  (FormatInt : Z -> Z -> string) (a b : FileRecord) :
  reporter.lessFileRecord b a = false ->
  reporter.row_le (reporter.fileRow Format FormatInt a)
                  (reporter.fileRow Format FormatInt b).
Proof. intros H. exact (key_lt_false_le (fileKey a) (fileKey b) H). Qed.

Lemma shareRow_le (Format : time.Time -> string -> string)
  (a b : ExternalShareRecord) :
  reporter.lessShareRecord b a = false ->
  reporter.row_le (reporter.shareRow Format a) (reporter.shareRow Format b).
Proof. intros H. exact (key_lt_false_le (shareKey a) (shareKey b) H). Qed.

(** C7. Whatever the order of the input records, what either writer hands
    to the sink is the fixed header row followed by the rows of the records
    in an order sorted by owner email ascending, ties broken by file name
    ascending, both by bytewise comparison; the rows are those of a
    rearrangement of the input.  When an I/O operation fails, what was
    written is a leading part of that output; when none fails, the writer
    reports no error and all of it is written.  ([sort.Slice] is taken by
    its contract.) *)
Theorem report_rows_are_sorted :
  forall (sort_Slice : forall A : Type, (A -> A -> bool) -> list A -> list A)
         (Format : time.Time -> string -> string)
         (FormatInt : Z -> Z -> string)
         (Join : string -> string -> string),
    reporter.sorts sort_Slice ->
    forall (r : reporter.CSVReporter) (s : reporter.Sink),
      (forall (records : list FileRecord) (err : option error) (s' : reporter.Sink),
          reporter.WriteFilesByOwner sort_Slice Format FormatInt Join r records s
          = (err, s') ->
          exists (sorted : list FileRecord) (written : list (list string)),
            Permutation records sorted /\
            StronglySorted reporter.row_le
              (map (reporter.fileRow Format FormatInt) sorted) /\
            reporter.rows s' = reporter.rows s ++ written /\
            (written = [] \/
             exists k : nat,
               written
               = reporter.filesHeader ::
                 firstn k (map (reporter.fileRow Format FormatInt) sorted)) /\
            (err = None ->
             written
             = reporter.filesHeader ::
               map (reporter.fileRow Format FormatInt) sorted) /\
            (reporter.faults s = [] -> err = None)) /\
      (forall (records : list ExternalShareRecord) (err : option error)
              (s' : reporter.Sink),
          reporter.WriteExternalSharing sort_Slice Format Join r records s
          = (err, s') ->
          exists (sorted : list ExternalShareRecord) (written : list (list string)),
            Permutation records sorted /\
            StronglySorted reporter.row_le
              (map (reporter.shareRow Format) sorted) /\
            reporter.rows s' = reporter.rows s ++ written /\
            (written = [] \/
             exists k : nat,
               written
               = reporter.sharingHeader ::
                 firstn k (map (reporter.shareRow Format) sorted)) /\
            (err = None ->
             written
             = reporter.sharingHeader :: map (reporter.shareRow Format) sorted) /\
            (reporter.faults s = [] -> err = None)).
Proof.
  intros sort_Slice Format FormatInt Join Hsort r s. split.
  - intros records err s' H. unfold reporter.WriteFilesByOwner in H.
    destruct (Hsort FileRecord reporter.lessFileRecord records lessFileRecord_swo)
      as [Hperm Hsorted].
    apply writeCSV_rows in H. destruct H as (written & Hrows & Hpre & Hall & Hok).
    exists (sort_Slice FileRecord reporter.lessFileRecord records), written.
    repeat split; try assumption.
    eapply StronglySorted_map; [|exact Hsorted].
    intros a b. apply fileRow_le.
  - intros records err s' H. unfold reporter.WriteExternalSharing in H.
    destruct (Hsort ExternalShareRecord reporter.lessShareRecord records
                lessShareRecord_swo) as [Hperm Hsorted].
    apply writeCSV_rows in H. destruct H as (written & Hrows & Hpre & Hall & Hok).
    exists (sort_Slice ExternalShareRecord reporter.lessShareRecord records), written.
    repeat split; try assumption.
    eapply StronglySorted_map; [|exact Hsorted].
    intros a b. apply shareRow_le.
Qed.

(** The records of [TestCSVReporter_SortingByOwner], written to a sink
    where nothing fails. *)
Lemma report_rows_are_sorted_witness :
  let records :=
    [mkFileRecord "charlie@example.com" "1" "c.txt" "" time.zero time.zero 0;
     mkFileRecord "alice@example.com" "2" "a.txt" "" time.zero time.zero 0;
     mkFileRecord "bob@example.com" "3" "b.txt" "" time.zero time.zero 0;
     mkFileRecord "alice@example.com" "4" "z.txt" "" time.zero time.zero 0;
     mkFileRecord "alice@example.com" "5" "m.txt" "" time.zero time.zero 0] in
  let Format := fun (_ : time.Time) (layout : string) => layout in
  let FormatInt := fun (_ _ : Z) => "0" in
  let Join := fun dir name : string => (dir ++ "/" ++ name)%string in
  let out :=
    reporter.WriteFilesByOwner reporter.insertion_sort Format FormatInt Join
      (reporter.mkCSVReporter "out") records (reporter.mkSink [] [] [] false) in
  reporter.sorts reporter.insertion_sort /\
  fst out = None /\
  map (fun row => (reporter.column 0 row, reporter.column 2 row))
    (reporter.rows (snd out))
  = [("owner_email", "file_name");
     ("alice@example.com", "a.txt");
     ("alice@example.com", "m.txt");
     ("alice@example.com", "z.txt");
     ("bob@example.com", "b.txt");
     ("charlie@example.com", "c.txt")] /\
  StronglySorted reporter.row_le (tl (reporter.rows (snd out))).
Proof.
  intros records Format FormatInt Join out.
  split; [exact insertion_sort_sorts|].
  split; [reflexivity|]. split; [reflexivity|].
  destruct (report_rows_are_sorted reporter.insertion_sort Format FormatInt Join
              insertion_sort_sorts (reporter.mkCSVReporter "out")
              (reporter.mkSink [] [] [] false)) as [Hfiles _].
  destruct (Hfiles records (fst out) (snd out) (surjective_pairing out))
    as (sorted & written & _ & Hsorted & Hrows & _ & Hall & _).
  rewrite Hrows, (Hall eq_refl). exact Hsorted.
Defined.

(** ** Exit status *)

(** C3. The exit codes that the package [exitcode] and the README assign
    to the five outcome classes are pairwise distinct, but [main] does not
    signal them: every run that fails, whatever the class of the failure,
    exits with [InternalError], so that a configuration error, an
    authentication error and a remote-API error are signalled by the same
    status as an internal error. *)
Theorem exit_status_collapses_failures :
  (forall o1 o2 : cli.Outcome,
      o1 <> o2 -> cli.documented_status o1 <> cli.documented_status o2) /\
  (forall st : cli.Stages,
      cli.main (cli.runAuditSharing st) = exitcode.Success \/
      cli.main (cli.runAuditSharing st) = exitcode.InternalError) /\
  cli.exit_status cli.OK = 0 /\
  cli.exit_status cli.ConfigFailure = 10 /\
  cli.exit_status cli.AuthFailure = 10 /\
  cli.exit_status cli.APIFailure = 10 /\
  cli.exit_status cli.InternalFailure = 10 /\
  cli.exit_status cli.ConfigFailure <> cli.documented_status cli.ConfigFailure /\
  cli.exit_status cli.AuthFailure <> cli.documented_status cli.AuthFailure /\
  cli.exit_status cli.APIFailure <> cli.documented_status cli.APIFailure.
Proof.
  split; [|split].
  - intros [] []; cbn; intros H; try discriminate; congruence.
  - intros st. unfold cli.runAuditSharing, cli.main.
    destruct (cli.loadConfig st); [now right|].
    destruct (cli.NewAuditor st); [now right|].
    destruct (cli.AuditExternalSharing st); [now right|].
    destruct (cli.NewCSVReporter st); [now right|].
    destruct (cli.WriteExternalSharing st); [now right | now left].
  - repeat split; try reflexivity; cbn; discriminate.
Qed.

(** * Further properties of the code *)

(** ** Domain extraction and classification *)

(** X1. The domain [ExtractDomain] returns never contains an [@] and is
    the tail end of the email; it is strictly shorter than an email that
    contains an [@]; extracting again from it gives the empty string. *)
Theorem ExtractDomain_is_at_free_suffix :
  forall email : string,
    contains_byte "@" (ExtractDomain email) = false /\
    (contains_byte "@" email = true ->
     exists local : string,
       email = (local ++ "@" ++ ExtractDomain email)%string) /\
    (contains_byte "@" email = true ->
     (String.length (ExtractDomain email) < String.length email)%nat) /\
    ExtractDomain (ExtractDomain email) = "".
Proof.
  intros email.
  assert (Hfree : contains_byte "@" (ExtractDomain email) = false).
  { destruct (contains_byte "@" email) eqn:E.
    - destruct (contains_byte_split _ _ E) as (a & b & -> & Hb).
      now rewrite ExtractDomain_split.
    - now rewrite ExtractDomain_absent. }
  split; [exact Hfree|]. split; [|split].
  - intros E. destruct (contains_byte_split _ _ E) as (a & b & -> & Hb).
    exists a. now rewrite ExtractDomain_split.
  - intros E. destruct (contains_byte_split _ _ E) as (a & b & -> & Hb).
    rewrite ExtractDomain_split by assumption.
    rewrite length_append. simpl. lia.
  - now apply ExtractDomain_absent.
Qed.

(** X2. A [user] or [group] permission whose email is not empty but has
    no [@], or ends in [@], has an empty extracted domain, and is therefore
    classified as external by every client with a non-empty domain. *)
Theorem malformed_email_is_external :
  forall (c : Client) (perm : drive.Permission),
    domain c <> "" ->
    Type_ perm = "user" \/ Type_ perm = "group" ->
    EmailAddress perm <> "" ->
    (contains_byte "@" (EmailAddress perm) = false \/
     exists local : string, EmailAddress perm = (local ++ "@")%string) ->
    IsExternalShare c perm = true.
Proof.
  intros c perm Hdom Htype Hemail Hbad.
  rewrite (IsExternalShare_email c perm Htype Hemail).
  apply str_ne_true.
  assert (Hempty : ExtractDomain (EmailAddress perm) = "").
  { destruct Hbad as [Hno | (local & ->)].
    - now apply ExtractDomain_absent.
    - now apply (ExtractDomain_split local ""). }
  rewrite Hempty. congruence.
Qed.

Lemma malformed_email_is_external_witness :
  IsExternalShare (mkClient "example.com" 100 true)
    (drive.mkPermission "p" "user" "reader" "not-an-address" "" "") = true /\
  IsExternalShare (mkClient "example.com" 100 true)
    (drive.mkPermission "p" "group" "reader" "team@" "" "") = true.
Proof.
  split.
  - apply malformed_email_is_external; cbn;
      [discriminate | now left | discriminate | now left].
  - apply malformed_email_is_external; cbn;
      [discriminate | now right | discriminate | right; now exists "team"].
Defined.

(** X3. The classification looks at the type and at one more field only:
    the role, the ID and the display name never matter; for type [domain]
    the email does not matter, for types [user] and [group] the domain
    field does not, and for any other type neither does. *)
Theorem classification_ignores_other_fields :
  forall (c : Client) (id id' type role role' email email' dom dom' name name' : string),
    IsExternalShare c (drive.mkPermission id type role email dom name)
    = IsExternalShare c (drive.mkPermission id' type role' email dom name') /\
    (type = "user" \/ type = "group" ->
     IsExternalShare c (drive.mkPermission id type role email dom name)
     = IsExternalShare c (drive.mkPermission id' type role' email dom' name')) /\
    (type <> "user" -> type <> "group" ->
     IsExternalShare c (drive.mkPermission id type role email dom name)
     = IsExternalShare c (drive.mkPermission id' type role' email' dom name')) /\
    (type <> "user" -> type <> "group" -> type <> "domain" ->
     IsExternalShare c (drive.mkPermission id type role email dom name)
     = IsExternalShare c (drive.mkPermission id' type role' email' dom' name')).
Proof.
  intros. unfold IsExternalShare. cbn [Type_ Domain EmailAddress].
  split; [reflexivity|]. split; [|split].
  - intros [-> | ->]; reflexivity.
  - intros Hu Hg. apply String.eqb_neq in Hu, Hg. now rewrite Hu, Hg.
  - intros Hu Hg Hd. apply String.eqb_neq in Hu, Hg, Hd. now rewrite Hu, Hg, Hd.
Qed.

(** X4. For a permission that the client classifies as external, the
    shared-with domain of its record differs from the organization domain
    whenever the permission is of type [user] or [group] with an empty domain
    field, or of type [domain] with a non-empty one. *)
Theorem shared_with_domain_is_foreign :
  forall (c : Client) (file : FileInfo) (perm : drive.Permission),
    IsExternalShare c perm = true ->
    ((Type_ perm = "user" \/ Type_ perm = "group") /\ Domain perm = "") \/
    (Type_ perm = "domain" /\ Domain perm <> "") ->
    SharedWithDomain (permissionToRecord file perm) <> domain c.
Proof.
  intros c file perm Hext [[Htype Hdom] | [Htype Hdom]];
    unfold permissionToRecord; cbn [SharedWithDomain].
  - destruct (String.eqb (EmailAddress perm) "") eqn:He.
    + apply String.eqb_eq in He.
      rewrite (IsExternalShare_no_email c perm Htype He) in Hext. discriminate.
    + apply String.eqb_neq in He.
      rewrite (IsExternalShare_email c perm Htype He) in Hext.
      apply str_ne_true in Hext. rewrite Hdom. cbn.
      apply str_ne_true in He. now rewrite He.
  - rewrite (IsExternalShare_domain c perm Htype) in Hext.
    apply str_ne_true in Hext. apply String.eqb_neq in Hdom. now rewrite Hdom.
Qed.

Lemma shared_with_domain_is_foreign_witness :
  SharedWithDomain
    (permissionToRecord (fileInfoOf example.f1) (permissionOf example.p_outside))
  <> "example.com".
Proof.
  apply (shared_with_domain_is_foreign example.c);
    [reflexivity | left; split; [now left | reflexivity]].
Defined.

(** ** The scripted double: what each operation leaves untouched *)

Lemma poll_frame (w w1 : mock.World) (o : option error) :
  mock.poll w = (o, w1) ->
  mock.log w1 = mock.log w ++ [mock.Polled] /\
  mock.files_script w1 = mock.files_script w /\
  mock.perms_script w1 = mock.perms_script w /\
  mock.cancel_err w1 = mock.cancel_err w /\
  (mock.polls_left w = None -> o = None /\ mock.polls_left w1 = None).
Proof.
  unfold mock.poll. destruct (mock.polls_left w) as [[|n]|];
    intros H; inversion H; cbn; repeat split; auto; discriminate.
Qed.

Lemma listFiles_frame (opts : ListFilesOptions) (w w1 : mock.World)
  (r : ListFilesResult + error) :
  mock.listFiles opts w = (r, w1) ->
  mock.log w1 = mock.log w ++ [mock.FilesCalled opts] /\
  mock.perms_script w1 = mock.perms_script w /\
  mock.polls_left w1 = mock.polls_left w.
Proof.
  unfold mock.listFiles. destruct (mock.files_script w);
    intros H; inversion H; cbn; auto.
Qed.

Lemma listPermissions_frame (fileID : string) (opts : ListPermissionsOptions)
  (w w1 : mock.World) (r : ListPermissionsResult + error) :
  mock.listPermissions fileID opts w = (r, w1) ->
  mock.log w1 = mock.log w ++ [mock.PermsCalled fileID opts] /\
  mock.files_script w1 = mock.files_script w /\
  mock.polls_left w1 = mock.polls_left w.
Proof.
  unfold mock.listPermissions. destruct (mock.perms_script w);
    intros H; inversion H; cbn; auto.
Qed.

(** What a run of the file listing adds to the log: requests that carry
    the client's settings, none of them a permission listing. *)
Lemma files_loop_events (c : Client) (fuel : nat) :
  forall (acc : list FileInfo) (tok : string) (w : mock.World) res (w' : mock.World),
    ListAllFiles_loop fuel c acc tok w = Some (res, w') ->
    exists evs : list mock.Event,
      mock.log w' = mock.log w ++ evs /\
      forallb (observe.uses_settings c) evs = true /\
      observe.no_permission_request evs = true /\
      mock.perms_script w' = mock.perms_script w /\
      (mock.polls_left w = None -> mock.polls_left w' = None).
Proof.
  assert (Hreq : forall tok,
             observe.uses_settings c (mock.FilesCalled (listFilesOptions c tok))
             = true).
  { intros tok. cbn. now rewrite Z.eqb_refl, eqb_reflx. }
  induction fuel as [|fuel IH]; intros acc tok w res w' H; [discriminate|].
  cbn [ListAllFiles_loop ctx_poll mock.mockContext ListFiles mock.mockAPI] in H.
  destruct (mock.poll w) as [o w1] eqn:Ep.
  destruct (poll_frame _ _ _ Ep) as (L1 & _ & P1 & _ & N1).
  destruct o as [e|].
  { injection H as <- <-. exists [mock.Polled]. repeat split; auto.
    intros Hn. destruct (N1 Hn) as [? _]. discriminate. }
  destruct (mock.listFiles (listFilesOptions c tok) w1) as [r w2] eqn:El.
  destruct (listFiles_frame _ _ _ _ El) as (L2 & P2 & N2).
  assert (Hdone :
            exists evs : list mock.Event,
              mock.log w2 = mock.log w ++ evs /\
              forallb (observe.uses_settings c) evs = true /\
              observe.no_permission_request evs = true /\
              mock.perms_script w2 = mock.perms_script w /\
              (mock.polls_left w = None -> mock.polls_left w2 = None)).
  { exists [mock.Polled; mock.FilesCalled (listFilesOptions c tok)].
    repeat split.
    - rewrite L2, L1, <- app_assoc. reflexivity.
    - cbn [forallb]. rewrite Hreq. reflexivity.
    - congruence.
    - intros Hn. rewrite N2. now apply N1. }
  destruct r as [r|err]; [|injection H as <- <-; exact Hdone].
  destruct (String.eqb (FilesNextPageToken r) "");
    [injection H as <- <-; exact Hdone|].
  apply IH in H. destruct H as (evs2 & L3 & U3 & Q3 & P3 & N3).
  destruct Hdone as (evs1 & L12 & U12 & Q12 & P12 & N12).
  exists (evs1 ++ evs2). repeat split.
  - rewrite L3, L12, <- app_assoc. reflexivity.
  - rewrite forallb_app, U12, U3. reflexivity.
  - unfold observe.no_permission_request in *.
    rewrite forallb_app, Q12, Q3. reflexivity.
  - congruence.
  - intros Hn. apply N3. now apply N12.
Qed.

Lemma first_page_fetches_app (l1 l2 : list mock.Event) :
  observe.first_page_fetches (l1 ++ l2)
  = observe.first_page_fetches l1 ++ observe.first_page_fetches l2.
Proof. unfold observe.first_page_fetches. apply flat_map_app. Qed.

(** What a run of the permission listing of one file adds to the log. *)
Lemma perms_loop_events (c : Client) (fileID : string) (fuel : nat) :
  forall (acc : list drive.Permission) (tok : string) (w : mock.World)
         res (w' : mock.World),
    GetFilePermissions_loop fuel c fileID acc tok w = Some (res, w') ->
    exists evs : list mock.Event,
      mock.log w' = mock.log w ++ evs /\
      forallb (observe.uses_settings c) evs = true /\
      mock.files_script w' = mock.files_script w /\
      (mock.polls_left w = None ->
       mock.polls_left w' = None /\
       observe.first_page_fetches evs
       = if String.eqb tok "" then [fileID] else []).
Proof.
  assert (Hreq : forall tok,
             observe.uses_settings c
               (mock.PermsCalled fileID (listPermissionsOptions c tok)) = true).
  { intros tok. cbn. now rewrite eqb_reflx. }
  induction fuel as [|fuel IH]; intros acc tok w res w' H; [discriminate|].
  cbn [GetFilePermissions_loop ctx_poll mock.mockContext
       ListPermissions mock.mockAPI] in H.
  destruct (mock.poll w) as [o w1] eqn:Ep.
  destruct (poll_frame _ _ _ Ep) as (L1 & F1 & _ & _ & N1).
  destruct o as [e|].
  { injection H as <- <-. exists [mock.Polled].
    split; [assumption|]. split; [reflexivity|]. split; [assumption|].
    intros Hn. destruct (N1 Hn) as [? _]. discriminate. }
  destruct (mock.listPermissions fileID (listPermissionsOptions c tok) w1)
    as [r w2] eqn:El.
  destruct (listPermissions_frame _ _ _ _ _ El) as (L2 & F2 & N2).
  assert (Hdone :
            exists evs : list mock.Event,
              mock.log w2 = mock.log w ++ evs /\
              forallb (observe.uses_settings c) evs = true /\
              mock.files_script w2 = mock.files_script w /\
              (mock.polls_left w = None ->
               mock.polls_left w2 = None /\
               observe.first_page_fetches evs
               = if String.eqb tok "" then [fileID] else [])).
  { exists [mock.Polled; mock.PermsCalled fileID (listPermissionsOptions c tok)].
    split; [|split; [|split]].
    - rewrite L2, L1, <- app_assoc. reflexivity.
    - cbn [forallb]. rewrite Hreq. reflexivity.
    - congruence.
    - intros Hn. split; [rewrite N2; now apply N1|].
      cbn. destruct (String.eqb tok ""); reflexivity. }
  destruct r as [r|err]; [|injection H as <- <-; exact Hdone].
  destruct (String.eqb (PermsNextPageToken r) "") eqn:Etok;
    [injection H as <- <-; exact Hdone|].
  apply IH in H. destruct H as (evs2 & L3 & U3 & F3 & N3).
  destruct Hdone as (evs1 & L12 & U12 & F12 & N12).
  exists (evs1 ++ evs2). split; [|split; [|split]].
  - rewrite L3, L12, <- app_assoc. reflexivity.
  - rewrite forallb_app, U12, U3. reflexivity.
  - congruence.
  - intros Hn. destruct (N12 Hn) as [Hn2 Hf1]. destruct (N3 Hn2) as [Hn3 Hf2].
    split; [assumption|].
    rewrite first_page_fetches_app, Hf1, Hf2, Etok, app_nil_r. reflexivity.
Qed.

(** What the loop over the listed files adds to the log. *)
Lemma sharing_loop_events (c : Client) (fuel : nat) (files : list FileInfo) :
  forall (r : AuditResult) (w : mock.World) res (w' : mock.World),
    sharing_loop fuel c files r w = Some (res, w') ->
    exists evs : list mock.Event,
      mock.log w' = mock.log w ++ evs /\
      forallb (observe.uses_settings c) evs = true /\
      mock.files_script w' = mock.files_script w /\
      (mock.polls_left w = None ->
       mock.polls_left w' = None /\
       observe.first_page_fetches evs = map ID files).
Proof.
  induction files as [|f files IH]; intros r w res w' H.
  - injection H as <- <-. exists []. rewrite app_nil_r.
    repeat split; auto.
  - cbn [sharing_loop ctx_poll mock.mockContext] in H.
    destruct (mock.poll w) as [o w1] eqn:Ep.
    destruct (poll_frame _ _ _ Ep) as (L1 & F1 & _ & _ & N1).
    destruct o as [e|].
    { injection H as <- <-. exists [mock.Polled].
      split; [assumption|]. split; [reflexivity|]. split; [assumption|].
      intros Hn. destruct (N1 Hn) as [? _]. discriminate. }
    destruct (GetFilePermissions fuel c (ID f) w1) as [[[perms err] w2]|] eqn:Eg;
      [|discriminate].
    unfold GetFilePermissions in Eg. apply perms_loop_events in Eg.
    destruct Eg as (evs1 & L2 & U2 & F2 & N2).
    assert (Hrest : exists evs : list mock.Event,
               mock.log w' = mock.log w2 ++ evs /\
               forallb (observe.uses_settings c) evs = true /\
               mock.files_script w' = mock.files_script w2 /\
               (mock.polls_left w2 = None ->
                mock.polls_left w' = None /\
                observe.first_page_fetches evs = map ID files)).
    { destruct err; eapply IH; exact H. }
    destruct Hrest as (evs2 & L3 & U3 & F3 & N3).
    exists (mock.Polled :: evs1 ++ evs2). split; [|split; [|split]].
    + rewrite L3, L2, L1, <- !app_assoc. reflexivity.
    + cbn [forallb observe.uses_settings]. rewrite forallb_app, U2, U3.
      reflexivity.
    + congruence.
    + intros Hn. destruct (N1 Hn) as [_ Hn1]. destruct (N2 Hn1) as [Hn2 Hf1].
      destruct (N3 Hn2) as [Hn3 Hf2]. split; [assumption|].
      change (mock.Polled :: evs1 ++ evs2) with ([mock.Polled] ++ evs1 ++ evs2).
      rewrite !first_page_fetches_app, Hf1, Hf2. reflexivity.
Qed.

(** ** Transport errors *)

Lemma files_error_mock (c : Client) (cerr ferr : error)
  (extra : list (ListFilesResult + error))
  (perms : list (ListPermissionsResult + error))
  (pre : list ListFilesResult) :
  Forall (fun r => FilesNextPageToken r <> "") pre ->
  forall (fuel : nat) (acc : list FileInfo) (tok : string) (log0 : list mock.Event),
    (List.length pre < fuel)%nat ->
    exists w' : mock.World,
      ListAllFiles_loop fuel c acc tok
        (mock.mkWorld None cerr (map inl pre ++ inr ferr :: extra) perms log0)
      = Some (([], Some (Wrapped "failed to list files" ferr)), w') /\
      mock.files_script w' = extra.
Proof.
  induction 1 as [|r pre Hr Hpre IH]; intros fuel acc tok log0 Hfuel;
    (destruct fuel as [|fuel]; [simpl in Hfuel; lia|]).
  - eexists. cbn. split; reflexivity.
  - cbn [ListAllFiles_loop ctx_poll mock.mockContext mock.poll mock.polls_left
         ListFiles mock.mockAPI mock.listFiles mock.files_script mock.log
         mock.cancel_err mock.perms_script map app List.length].
    apply String.eqb_neq in Hr. rewrite Hr.
    apply IH. simpl in Hfuel. lia.
Qed.

Lemma perms_error_mock (c : Client) (fileID : string) (cerr perr : error)
  (files : list (ListFilesResult + error))
  (extra : list (ListPermissionsResult + error))
  (pre : list ListPermissionsResult) :
  Forall (fun r => PermsNextPageToken r <> "") pre ->
  forall (fuel : nat) (acc : list drive.Permission) (tok : string)
         (log0 : list mock.Event),
    (List.length pre < fuel)%nat ->
    exists w' : mock.World,
      GetFilePermissions_loop fuel c fileID acc tok
        (mock.mkWorld None cerr files (map inl pre ++ inr perr :: extra) log0)
      = Some (([], Some (Wrapped ("failed to list permissions for file " ++ fileID)%string
                           perr)), w') /\
      mock.perms_script w' = extra.
Proof.
  induction 1 as [|r pre Hr Hpre IH]; intros fuel acc tok log0 Hfuel;
    (destruct fuel as [|fuel]; [simpl in Hfuel; lia|]).
  - eexists. cbn. split; reflexivity.
  - cbn [GetFilePermissions_loop ctx_poll mock.mockContext mock.poll
         mock.polls_left ListPermissions mock.mockAPI mock.listPermissions
         mock.files_script mock.log mock.cancel_err mock.perms_script map app
         List.length].
    apply String.eqb_neq in Hr. rewrite Hr.
    apply IH. simpl in Hfuel. lia.
Qed.

(** X5. An error of the remote listing call aborts the aggregation: after
    any number of pages served, the error of the next call makes
    [ListAllFiles] and [GetFilePermissions] return no item at all — the pages
    already received are dropped — together with the error wrapped under the
    operation ([failed to list files], respectively
    [failed to list permissions for file <ID>]); no further call is made. *)
Theorem transport_error_discards_pages :
  forall (c : Client) (fileID : string) (cerr ferr perr : error)
         (fpre : list ListFilesResult) (fextra : list (ListFilesResult + error))
         (ppre : list ListPermissionsResult)
         (pextra : list (ListPermissionsResult + error))
         (log0 : list mock.Event) (fuel : nat),
    Forall (fun r => FilesNextPageToken r <> "") fpre ->
    Forall (fun r => PermsNextPageToken r <> "") ppre ->
    (List.length fpre < fuel)%nat ->
    (List.length ppre < fuel)%nat ->
    let w := mock.mkWorld None cerr
               (map inl fpre ++ inr ferr :: fextra)
               (map inl ppre ++ inr perr :: pextra) log0 in
    (exists w' : mock.World,
        ListAllFiles fuel c w
        = Some (([], Some (Wrapped "failed to list files" ferr)), w') /\
        mock.files_script w' = fextra) /\
    (exists w' : mock.World,
        GetFilePermissions fuel c fileID w
        = Some (([], Some (Wrapped
                             ("failed to list permissions for file " ++ fileID)%string
                             perr)), w') /\
        mock.perms_script w' = pextra).
Proof.
  intros c fileID cerr ferr perr fpre fextra ppre pextra log0 fuel
    Hf Hp Hfuel1 Hfuel2 w.
  split.
  - apply (files_error_mock c cerr ferr fextra _ fpre Hf fuel [] "" log0 Hfuel1).
  - apply (perms_error_mock c fileID cerr perr _ pextra ppre Hp fuel [] "" log0
             Hfuel2).
Qed.

Lemma transport_error_discards_pages_witness :
  let c := mkClient "example.com" 100 true in
  let page := mkListFilesResult [example.f1; example.f2] "t1" in
  let ppage := mkListPermissionsResult [example.p_outside] "t1" in
  let w := mock.mkWorld None Canceled
             [inl page; inr example.forbidden]
             [inl ppage; inr example.forbidden] [] in
  (exists w' : mock.World,
      ListAllFiles 2 c w
      = Some (([], Some (Wrapped "failed to list files" example.forbidden)), w') /\
      mock.files_script w' = []) /\
  (exists w' : mock.World,
      GetFilePermissions 2 c "f1" w
      = Some (([], Some (Wrapped "failed to list permissions for file f1"
                           example.forbidden)), w') /\
      mock.perms_script w' = []).
Proof.
  intros c page ppage w.
  apply (transport_error_discards_pages c "f1" Canceled example.forbidden
           example.forbidden [page] [] [ppage] [] [] 2%nat).
  - repeat constructor; discriminate.
  - repeat constructor; discriminate.
  - simpl; lia.
  - simpl; lia.
Defined.

(** ** The files-by-owner audit *)

Lemma AuditFiles_fold (Parse : string -> string -> time.Time * option error)
  (files : list FileInfo) :
  forall r : AuditResult,
    fold_left
      (fun result f =>
         auditor.set_FileRecords
           (FileRecords result ++ [auditor.fileInfoToRecord Parse f]) result)
      files r
    = auditor.set_FileRecords
        (FileRecords r ++ map (auditor.fileInfoToRecord Parse) files) r.
Proof.
  induction files as [|f files IH]; intros r.
  - destruct r. cbn. now rewrite app_nil_r.
  - cbn [fold_left map]. rewrite IH. unfold auditor.set_FileRecords. cbn.
    now rewrite <- app_assoc.
Qed.

Section FilesAudit.

Context {W : Type} {API : DriveAPI W} {CTX : api.Context W}.
Variable Parse : string -> string -> time.Time * option error.

Lemma AuditFiles_listed (fuel : nat) (a : Auditor) (w w1 : W)
  (files : list FileInfo) :
  ListAllFiles fuel (driveClient a) w = Some ((files, None), w1) ->
  auditor.AuditFiles Parse fuel a w
  = Some ((Some {| TotalFiles := len files;
                   TotalExternalShares := 0;
                   FilesProcessed := len files;
                   Errors := [];
                   FileRecords := map (auditor.fileInfoToRecord Parse) files;
                   ExternalShares := [] |}, None), w1).
Proof.
  intros H. unfold auditor.AuditFiles. rewrite H, AuditFiles_fold. reflexivity.
Qed.

Lemma AuditFiles_inv (fuel : nat) (a : Auditor) (w w' : W)
  (res : option AuditResult) (e : option error) :
  auditor.AuditFiles Parse fuel a w = Some ((res, e), w') ->
  (exists (files : list FileInfo) (err : error),
      ListAllFiles fuel (driveClient a) w = Some ((files, Some err), w') /\
      res = None /\ e = Some (Wrapped "failed to list files" err)) \/
  (exists files : list FileInfo,
      ListAllFiles fuel (driveClient a) w = Some ((files, None), w') /\
      e = None /\
      res = Some {| TotalFiles := len files;
                    TotalExternalShares := 0;
                    FilesProcessed := len files;
                    Errors := [];
                    FileRecords := map (auditor.fileInfoToRecord Parse) files;
                    ExternalShares := [] |}).
Proof.
  intros H.
  destruct (ListAllFiles fuel (driveClient a) w) as [[[files [err|]] w1]|] eqn:EL.
  - unfold auditor.AuditFiles in H. rewrite EL in H. injection H as <- <- <-.
    left. exists files, err. auto.
  - rewrite (AuditFiles_listed fuel a w w1 files EL) in H.
    injection H as <- <- <-. right. exists files. auto.
  - unfold auditor.AuditFiles in H. rewrite EL in H. discriminate.
Qed.

End FilesAudit.

(** X6. The files-by-owner audit returns, for a file listing that
    succeeds, a result and no error: one record per listed file, in listing
    order, with the owner, ID, name, type and size of the file;
    [TotalFiles], [FilesProcessed] and the number of records all equal the
    number of listed files; no error and no external share is recorded.  No
    timestamp can make it fail. *)
Theorem files_audit_records_every_listed_file :
  forall (W : Type) (API : DriveAPI W) (CTX : api.Context W)
         (Parse : string -> string -> time.Time * option error)
         (fuel : nat) (a : Auditor) (w w1 : W) (files : list FileInfo),
    ListAllFiles fuel (driveClient a) w = Some ((files, None), w1) ->
    exists res : AuditResult,
      auditor.AuditFiles Parse fuel a w = Some ((Some res, None), w1) /\
      TotalFiles res = len files /\
      FilesProcessed res = len files /\
      len (FileRecords res) = len files /\
      Errors res = [] /\
      ExternalShares res = [] /\
      map fr_FileID (FileRecords res) = map ID files /\
      map fr_OwnerEmail (FileRecords res) = map drive.OwnerEmail files /\
      map fr_FileName (FileRecords res) = map Name files /\
      map fr_FileType (FileRecords res) = map MimeType files /\
      map fr_SizeBytes (FileRecords res) = map Size files.
Proof.
  intros W API CTX Parse fuel a w w1 files H.
  eexists. split; [apply (AuditFiles_listed Parse fuel a w w1 files H)|].
  cbn. unfold len. rewrite length_map, !map_map. cbn.
  repeat split; reflexivity.
Qed.

Lemma files_audit_records_every_listed_file_witness :
  let Parse := fun (_ _ : string) => (time.zero, Some (ErrorString "parse")) in
  exists res : AuditResult,
    auditor.AuditFiles Parse 2 example.a example.world
    = Some ((Some res, None),
            mock.mkWorld None Canceled [] (mock.perms_script example.world)
              (filesRequests example.c [""; "t1"])) /\
    TotalFiles res = 3 /\
    map fr_FileID (FileRecords res) = ["f1"; "f2"; "f3"].
Proof.
  intros Parse.
  assert (Hlist : ListAllFiles 2 (driveClient example.a) example.world
                  = Some ((example.listed, None),
                          mock.mkWorld None Canceled []
                            (mock.perms_script example.world)
                            (filesRequests example.c [""; "t1"])))
    by (vm_compute; reflexivity).
  destruct (files_audit_records_every_listed_file mock.World _ _ Parse 2%nat
              example.a example.world _ example.listed Hlist)
    as (res & Hrun & HT & _ & _ & _ & _ & Hid & _).
  exists res. repeat split; assumption.
Defined.

(** X7. A file listing that ends in an error — an error of the remote
    call, or a cancellation, in which case [ListAllFiles] does hand back the
    files of the pages already received — is fatal to both audits: each
    returns no result ([nil]: the partial list is dropped) and the error
    wrapped under [failed to list files].  On the scripted double, no
    permission listing is requested in such a run. *)
Theorem listing_failure_is_fatal_to_both_audits :
  forall (Parse : string -> string -> time.Time * option error)
         (fuel : nat) (a : Auditor) (w w1 : mock.World)
         (files : list FileInfo) (err : error),
    ListAllFiles fuel (driveClient a) w = Some ((files, Some err), w1) ->
    AuditExternalSharing fuel a w
    = Some ((None, Some (Wrapped "failed to list files" err)), w1) /\
    auditor.AuditFiles Parse fuel a w
    = Some ((None, Some (Wrapped "failed to list files" err)), w1) /\
    mock.perms_script w1 = mock.perms_script w /\
    exists evs : list mock.Event,
      mock.log w1 = mock.log w ++ evs /\
      observe.no_permission_request evs = true.
Proof.
  intros Parse fuel a w w1 files err H.
  split; [|split].
  - unfold AuditExternalSharing. now rewrite H.
  - unfold auditor.AuditFiles. now rewrite H.
  - unfold ListAllFiles in H. apply files_loop_events in H.
    destruct H as (evs & L & _ & Q & P & _). split; [assumption|].
    exists evs. auto.
Qed.

(** The listing of the example cancelled after its first page: the two
    files of that page are handed back by [ListAllFiles] and dropped by the
    audit. *)
Lemma listing_failure_is_fatal_to_both_audits_witness :
  exists w1 : mock.World,
    ListAllFiles 2 example.c (example.world_cancelled_after 1)
    = Some ((map fileInfoOf [example.f1; example.f2], Some Canceled), w1) /\
    AuditExternalSharing 2 example.a (example.world_cancelled_after 1)
    = Some ((None, Some (Wrapped "failed to list files" Canceled)), w1).
Proof.
  eexists.
  match goal with
  | |- ?A /\ _ => assert (H : A) by (cbv; reflexivity)
  end.
  split; [exact H|].
  exact (proj1 (listing_failure_is_fatal_to_both_audits
                  (fun _ _ => (time.zero, None)) _ example.a _ _ _ _ H)).
Defined.

(** ** The loop of the external-sharing audit *)

Lemma filter_none {A : Type} (f : A -> bool) (l : list A) :
  forallb (fun x => negb (f x)) l = true -> filter f l = [].
Proof.
  induction l as [|x l IH]; [reflexivity|]. cbn. intros H.
  apply andb_true_iff in H. destruct H as [Hx Hl].
  apply negb_true_iff in Hx. rewrite Hx. now apply IH.
Qed.

(** X8. In any run of the loop of the external-sharing audit, a file
    whose permission fetch succeeds is counted in [FilesProcessed] and adds
    one record per permission that the client classifies as external, in the
    order of the permissions and after the records of the files before it;
    the other permissions add nothing, and the error list is unchanged.  The
    loop then goes on with the files after it. *)
Theorem permission_fetch_success_appends_external_shares :
  forall (W : Type) (API : DriveAPI W) (CTX : api.Context W)
         (fuel : nat) (c : Client)
         (done : list FileInfo) (file : FileInfo) (rest : list FileInfo)
         (r0 r : AuditResult) (w0 w w1 w2 : W)
         (perms : list drive.Permission),
    sharing_loop fuel c done r0 w0 = Some ((r, None), w) ->
    ctx_poll w = (None, w1) ->
    GetFilePermissions fuel c (ID file) w1 = Some ((perms, None), w2) ->
    exists r' : AuditResult,
      sharing_loop fuel c (done ++ file :: rest) r0 w0
      = sharing_loop fuel c rest r' w2 /\
      ExternalShares r'
      = ExternalShares r
        ++ map (permissionToRecord file) (filter (IsExternalShare c) perms) /\
      FilesProcessed r' = wrap_int (FilesProcessed r + 1) /\
      (0 <= FilesProcessed r < MaxInt -> FilesProcessed r' = FilesProcessed r + 1) /\
      Errors r' = Errors r /\
      TotalFiles r' = TotalFiles r /\
      (forallb (fun p => negb (IsExternalShare c p)) perms = true ->
       ExternalShares r' = ExternalShares r).
Proof.
  intros W API CTX fuel c done file rest r0 r w0 w w1 w2 perms Hdone Hpoll Hfetch.
  eexists. split.
  - rewrite sharing_loop_app, Hdone. cbn [sharing_loop].
    rewrite Hpoll, Hfetch. reflexivity.
  - cbn [ExternalShares FilesProcessed Errors TotalFiles
         set_ExternalShares set_FilesProcessed].
    rewrite appendShares_filter.
    split; [reflexivity|]. split; [reflexivity|].
    split; [|split; [reflexivity|split; [reflexivity|]]].
    + intros Hb. apply wrap_int_id. unfold MinInt, MaxInt in *. lia.
    + intros Hall. rewrite (filter_none _ _ Hall). cbn [map]. apply app_nil_r.
Qed.

Lemma permission_fetch_success_appends_external_shares_witness :
  let w0 := mock.mkWorld None Canceled [] (mock.perms_script example.world) [] in
  let file := fileInfoOf example.f1 in
  let rest := map fileInfoOf [example.f2; example.f3] in
  let r0 := initialResult example.listed in
  exists (w1 w2 : mock.World) (perms : list drive.Permission),
    ctx_poll w0 = (None, w1) /\
    GetFilePermissions 2 example.c (ID file) w1 = Some ((perms, None), w2) /\
    exists r' : AuditResult,
      sharing_loop 2 example.c (file :: rest) r0 w0
      = sharing_loop 2 example.c rest r' w2 /\
      ExternalShares r'
      = [permissionToRecord file (permissionOf example.p_outside)] /\
      FilesProcessed r' = 1.
Proof.
  intros w0 file rest r0.
  do 3 eexists.
  match goal with
  | |- ?A /\ ?B /\ _ =>
      assert (H1 : A) by (cbv; reflexivity);
      assert (H2 : B) by (cbv; reflexivity)
  end.
  split; [exact H1|]. split; [exact H2|].
  destruct (permission_fetch_success_appends_external_shares
              _ _ _ 2%nat example.c [] file rest r0 r0 w0 w0 _ _ _
              eq_refl H1 H2)
    as (r' & Hloop & HS & HP & _).
  exists r'. split; [exact Hloop|]. split; [rewrite HS | rewrite HP]; reflexivity.
Defined.





Lemma sharing_audit_uses_settings (fuel : nat) (a : Auditor)
  (w w' : mock.World) res :
  AuditExternalSharing fuel a w = Some (res, w') ->
  exists evs : list mock.Event,
    mock.log w' = mock.log w ++ evs /\
    forallb (observe.uses_settings (driveClient a)) evs = true.
Proof.
  intros H. unfold AuditExternalSharing in H.
  destruct (ListAllFiles fuel (driveClient a) w) as [[[files err] w1]|] eqn:EL;
    [|discriminate].
  unfold ListAllFiles in EL. apply files_loop_events in EL.
  destruct EL as (evs1 & L1 & U1 & _).
  destruct err as [err|]; [injection H as <- <-; eauto|].
  match type of H with
  | match ?x with _ => _ end = _ => destruct x as [[[r' e'] w2]|] eqn:ES
  end; [|discriminate].
  apply sharing_loop_events in ES. destruct ES as (evs2 & L2 & U2 & _).
  exists (evs1 ++ evs2). split.
  - destruct e'; injection H as <- <-; rewrite L2, L1, <- app_assoc;
      reflexivity.
  - rewrite forallb_app, U1, U2. reflexivity.
Qed.

(** X10. Every request that either audit makes carries the settings of
    the client: a file listing asks for corpora [domain] with the client's
    page size and with both shared-drive flags as the client has them; a
    permission listing has the client's shared-drive flag.  This holds for
    every run on the scripted double, whatever the responses. *)
Theorem every_request_carries_the_client_settings :
  forall (Parse : string -> string -> time.Time * option error)
         (fuel : nat) (a : Auditor) (w w' : mock.World),
    (forall res,
        AuditExternalSharing fuel a w = Some (res, w') ->
        exists evs : list mock.Event,
          mock.log w' = mock.log w ++ evs /\
          forallb (observe.uses_settings (driveClient a)) evs = true) /\
    (forall res,
        auditor.AuditFiles Parse fuel a w = Some (res, w') ->
        exists evs : list mock.Event,
          mock.log w' = mock.log w ++ evs /\
          forallb (observe.uses_settings (driveClient a)) evs = true).
Proof.
  intros Parse fuel a w w'. split.
  - intros res. apply sharing_audit_uses_settings.
  - intros [res e] H. apply AuditFiles_inv in H.
    destruct H as [(files & err & HL & _) | (files & HL & _)];
      unfold ListAllFiles in HL; apply files_loop_events in HL;
      destruct HL as (evs & L & U & _); eauto.
Qed.

(** X11. The files-by-owner audit never asks for permissions: in every
    run on the scripted double it requests no permission listing and leaves
    the scripted permission responses unconsumed. *)
Theorem files_audit_requests_no_permissions :
  forall (Parse : string -> string -> time.Time * option error)
         (fuel : nat) (a : Auditor) (w w' : mock.World)
         (res : option AuditResult * option error),
    auditor.AuditFiles Parse fuel a w = Some (res, w') ->
    mock.perms_script w' = mock.perms_script w /\
    exists evs : list mock.Event,
      mock.log w' = mock.log w ++ evs /\
      observe.no_permission_request evs = true.
Proof.
  intros Parse fuel a w w' [res e] H. apply AuditFiles_inv in H.
  destruct H as [(files & err & HL & _) | (files & HL & _)];
    unfold ListAllFiles in HL; apply files_loop_events in HL;
    destruct HL as (evs & L & _ & Q & P & _); eauto.
Qed.

Lemma files_audit_requests_no_permissions_witness :
  exists (res : option AuditResult * option error) (w' : mock.World),
    auditor.AuditFiles (fun _ _ => (time.zero, None)) 2 example.a example.world
    = Some (res, w') /\
    mock.perms_script w' = mock.perms_script example.world /\
    exists evs : list mock.Event,
      mock.log w' = mock.log example.world ++ evs /\
      observe.no_permission_request evs = true.
Proof.
  do 2 eexists.
  match goal with
  | |- ?A /\ _ => assert (H : A) by (cbv; reflexivity)
  end.
  split; [exact H|].
  exact (files_audit_requests_no_permissions _ _ _ _ _ _ H).
Defined.

(** ** Listings that never end *)

(** X12. The aggregators put no bound on the number of pages: as long as
    the context is not cancelled and every call returns a page with a
    non-empty continuation token, neither [ListAllFiles] nor
    [GetFilePermissions] returns, whatever the number of iterations allowed,
    and so neither does the external-sharing audit. *)
Theorem aggregation_has_no_page_limit :
  forall (W : Type) (API : DriveAPI W) (CTX : api.Context W)
         (c : Client) (a : Auditor) (fileID : string),
    (forall w : W, fst (ctx_poll w) = None) ->
    (forall (opts : ListFilesOptions) (w : W),
        exists r, fst (ListFiles opts w) = inl r /\ FilesNextPageToken r <> "") ->
    (forall (id : string) (opts : ListPermissionsOptions) (w : W),
        exists r, fst (ListPermissions id opts w) = inl r /\
                  PermsNextPageToken r <> "") ->
    forall (fuel : nat) (w : W),
      ListAllFiles fuel c w = None /\
      GetFilePermissions fuel c fileID w = None /\
      AuditExternalSharing fuel a w = None.
Proof.
  intros W API CTX c a fileID Hctx Hfiles Hperms fuel w.
  assert (HL : forall c fuel acc tok w, ListAllFiles_loop fuel c acc tok w = None).
  { intros c0 k. induction k as [|n IH]; intros acc tok w0; [reflexivity|].
    cbn [ListAllFiles_loop].
    specialize (Hctx w0). destruct (ctx_poll w0) as [o w1]. cbn in Hctx. subst o.
    destruct (Hfiles (listFilesOptions c0 tok) w1) as (r & Hr & Htok).
    destruct (ListFiles (listFilesOptions c0 tok) w1) as [x w2]. cbn in Hr.
    subst x. apply String.eqb_neq in Htok. rewrite Htok. apply IH. }
  assert (HP : forall fuel acc tok w,
             GetFilePermissions_loop fuel c fileID acc tok w = None).
  { intros k. induction k as [|n IH]; intros acc tok w0; [reflexivity|].
    cbn [GetFilePermissions_loop].
    specialize (Hctx w0). destruct (ctx_poll w0) as [o w1]. cbn in Hctx. subst o.
    destruct (Hperms fileID (listPermissionsOptions c tok) w1) as (r & Hr & Htok).
    destruct (ListPermissions fileID (listPermissionsOptions c tok) w1)
      as [x w2]. cbn in Hr.
    subst x. apply String.eqb_neq in Htok. rewrite Htok. apply IH. }
  split; [apply HL|]. split; [apply HP|].
  unfold AuditExternalSharing, ListAllFiles. now rewrite HL.
Qed.

Lemma aggregation_has_no_page_limit_witness :
  @ListAllFiles unit endless.api endless.ctx 1000 example.c tt = None /\
  @GetFilePermissions unit endless.api endless.ctx 1000 example.c "f1" tt = None /\
  @AuditExternalSharing unit endless.api endless.ctx 1000 example.a tt = None.
Proof.
  apply (aggregation_has_no_page_limit unit endless.api endless.ctx).
  - intros w. reflexivity.
  - intros opts w. eexists. split; [reflexivity | discriminate].
  - intros id opts w. eexists. split; [reflexivity | discriminate].
Defined.

(** ** [AuditAll] *)

(** X13. [AuditAll] runs the files audit, then the sharing audit.  When
    the files audit fails it returns no result at all and does not start the
    sharing audit.  When the sharing audit returns an error — also the
    cancellation error that comes with a partial result — it returns the
    files result and no sharing result.  When it returns both results, they
    come from two separate file listings, one after the other, and each
    result counts the files of its own listing. *)
Theorem audit_all_combines_the_two_audits :
  forall (W : Type) (API : DriveAPI W) (CTX : api.Context W)
         (Parse : string -> string -> time.Time * option error)
         (fuel : nat) (a : Auditor) (w : W),
    (forall (fr : option AuditResult) (err : error) (w1 : W),
        auditor.AuditFiles Parse fuel a w = Some ((fr, Some err), w1) ->
        auditor.AuditAll Parse fuel a w
        = Some ((None, None, Some (Wrapped "files audit failed" err)), w1)) /\
    (forall (fr sr : option AuditResult) (err : error) (w1 w2 : W),
        auditor.AuditFiles Parse fuel a w = Some ((fr, None), w1) ->
        AuditExternalSharing fuel a w1 = Some ((sr, Some err), w2) ->
        auditor.AuditAll Parse fuel a w
        = Some ((fr, None, Some (Wrapped "sharing audit failed" err)), w2)) /\
    (forall (fr sr : option AuditResult) (w2 : W),
        auditor.AuditAll Parse fuel a w = Some ((fr, sr, None), w2) ->
        exists (files1 files2 : list FileInfo) (w1 w1' : W)
               (filesResult sharingResult : AuditResult),
          ListAllFiles fuel (driveClient a) w = Some ((files1, None), w1) /\
          ListAllFiles fuel (driveClient a) w1 = Some ((files2, None), w1') /\
          fr = Some filesResult /\
          sr = Some sharingResult /\
          TotalFiles filesResult = len files1 /\
          TotalFiles sharingResult = len files2).
Proof.
  intros W API CTX Parse fuel a w. split; [|split].
  - intros fr err w1 H. unfold auditor.AuditAll. now rewrite H.
  - intros fr sr err w1 w2 HF HS. unfold auditor.AuditAll. now rewrite HF, HS.
  - intros fr sr w2 H. unfold auditor.AuditAll in H.
    destruct (auditor.AuditFiles Parse fuel a w) as [[[fr0 [e|]] w1]|] eqn:EF;
      [discriminate| |discriminate].
    destruct (AuditExternalSharing fuel a w1) as [[[sr0 [e|]] w2']|] eqn:ES;
      [discriminate| |discriminate].
    injection H as <- <- <-.
    apply AuditFiles_inv in EF.
    destruct EF as [(files & err & _ & _ & Hbad) | (files1 & HL1 & _ & ->)];
      [discriminate|].
    destruct sr0 as [sres|].
    + pose proof ES as ES'. apply AuditExternalSharing_inv in ES'.
      destruct ES' as (files2 & w1' & r' & HL2 & HS & ->).
      apply sharing_loop_inv in HS. destruct HS as (HT & _).
      exists files1, files2, w1, w1'. do 2 eexists.
      split; [exact HL1|]. split; [exact HL2|].
      split; [reflexivity|]. split; [reflexivity|].
      split; [reflexivity | exact HT].
    + unfold AuditExternalSharing in ES.
      destruct (ListAllFiles fuel (driveClient a) w1) as [[[fs [e|]] w3]|];
        [discriminate| |discriminate].
      match type of ES with
      | match ?x with _ => _ end = _ => destruct x as [[[r' [e'|]] w4]|]
      end; discriminate.
Qed.

Lemma audit_all_combines_the_two_audits_witness :
  exists (filesResult sharingResult : AuditResult) (w2 : mock.World),
    auditor.AuditAll (fun _ _ => (time.zero, None)) 2 example.a example_all.world
    = Some ((Some filesResult, Some sharingResult, None), w2) /\
    TotalFiles filesResult = 3 /\
    TotalFiles sharingResult = 3 /\
    List.length
      (filter (fun ev => match ev with mock.FilesCalled _ => true | _ => false end)
         (mock.log w2)) = 4%nat.
Proof.
  do 3 eexists.
  match goal with
  | |- ?A /\ _ => assert (H : A) by (cbv; reflexivity)
  end.
  split; [exact H|].
  destruct (audit_all_combines_the_two_audits mock.World _ _
              (fun _ _ => (time.zero, None)) 2%nat example.a example_all.world)
    as (_ & _ & Hboth).
  destruct (Hboth _ _ _ H) as (f1 & f2 & w1 & w1' & fres & sres & _).
  repeat split.
Defined.

(** ** The report sink: I/O outcomes *)

Lemma consumes_trans (s s1 s2 : reporter.Sink) (e : option error) :
  consumes s s1 None -> consumes s1 s2 e -> consumes s s2 e.
Proof.
  intros (u1 & H1 & F1) (u2 & H2 & F2). exists (u1 ++ u2). split.
  - rewrite H1, H2, app_assoc. reflexivity.
  - intros He. apply Forall_app. auto.
Qed.

Lemma Create_effect (path : string) (s s1 : reporter.Sink) :
  reporter.Create path s = (None, s1) ->
  reporter.created s1 = reporter.created s ++ [path] /\
  reporter.closed s1 = reporter.closed s /\
  consumes s s1 None.
Proof.
  unfold reporter.Create, reporter.next_fault, consumes.
  destruct (reporter.faults s) as [|[e|] rest] eqn:Ef; intros H;
    inversion H; subst; cbn; repeat split.
  - exists []. rewrite ?Ef. split; [reflexivity | constructor].
  - exists [None]. rewrite ?Ef. split; [reflexivity | repeat constructor].
Qed.

Lemma Write_effect (row : list string) (s s1 : reporter.Sink) :
  reporter.Write row s = (None, s1) ->
  reporter.created s1 = reporter.created s /\
  reporter.closed s1 = reporter.closed s /\
  consumes s s1 None.
Proof.
  unfold reporter.Write, reporter.next_fault, consumes.
  destruct (reporter.faults s) as [|[e|] rest] eqn:Ef; intros H;
    inversion H; subst; cbn; repeat split.
  - exists []. rewrite ?Ef. split; [reflexivity | constructor].
  - exists [None]. rewrite ?Ef. split; [reflexivity | repeat constructor].
Qed.

Lemma Flush_effect (s s1 : reporter.Sink) :
  reporter.Flush s = (None, s1) ->
  reporter.created s1 = reporter.created s /\
  reporter.closed s1 = reporter.closed s /\
  consumes s s1 None.
Proof.
  unfold reporter.Flush, reporter.next_fault, consumes.
  destruct (reporter.faults s) as [|[e|] rest] eqn:Ef; intros H;
    inversion H; subst; cbn; repeat split.
  - exists []. rewrite ?Ef. split; [reflexivity | constructor].
  - exists [None]. rewrite ?Ef. split; [reflexivity | repeat constructor].
Qed.

Lemma deferred_close_effect (s s' : reporter.Sink) (err : option error) :
  reporter.deferred_close (err, s) = (None, s') ->
  err = None /\
  reporter.created s' = reporter.created s /\
  reporter.closed s' = true /\
  consumes s s' None.
Proof.
  unfold reporter.deferred_close, reporter.Close, reporter.next_fault, consumes.
  destruct (reporter.faults s) as [|[e|] rest] eqn:Ef; destruct err as [e0|];
    intros H; inversion H; subst; cbn; repeat split.
  - exists []. rewrite ?Ef. split; [reflexivity | constructor].
  - exists [None]. rewrite ?Ef. split; [reflexivity | repeat constructor].
Qed.

Lemma writeRecords_effect {A : Type} (row : A -> list string) (records : list A) :
  forall s s' : reporter.Sink,
    reporter.writeRecords row records s = (None, s') ->
    reporter.created s' = reporter.created s /\
    reporter.closed s' = reporter.closed s /\
    consumes s s' None.
Proof.
  induction records as [|rec records IH]; intros s s' H.
  - injection H as <-. repeat split. exists []. split; [reflexivity | constructor].
  - cbn [reporter.writeRecords] in H.
    destruct (reporter.Write (row rec) s) as [[e|] s1] eqn:Ew; [discriminate|].
    apply Write_effect in Ew. destruct Ew as (C1 & D1 & U1).
    apply IH in H. destruct H as (C2 & D2 & U2).
    repeat split; try congruence. eapply consumes_trans; eassumption.
Qed.

Lemma writeCSV_success {A : Type} (path : string) (header : list string)
  (row : A -> list string) (records : list A) (s s' : reporter.Sink) :
  reporter.writeCSV path header row records s = (None, s') ->
  reporter.created s' = reporter.created s ++ [path] /\
  reporter.closed s' = true /\
  consumes s s' None.
Proof.
  unfold reporter.writeCSV.
  destruct (reporter.Create path s) as [[e|] s1] eqn:Ec; [discriminate|].
  apply Create_effect in Ec. destruct Ec as (C1 & _ & U1).
  destruct (reporter.Write header s1) as [[e|] s2] eqn:Eh.
  { intros H. apply deferred_close_effect in H. destruct H as [? _]. discriminate. }
  apply Write_effect in Eh. destruct Eh as (C2 & _ & U2).
  destruct (reporter.writeRecords row records s2) as [[e|] s3] eqn:Ew.
  { intros H. apply deferred_close_effect in H. destruct H as [? _]. discriminate. }
  apply writeRecords_effect in Ew. destruct Ew as (C3 & _ & U3).
  destruct (reporter.Flush s3) as [[e|] s4] eqn:Efl.
  { intros H. apply deferred_close_effect in H. destruct H as [? _]. discriminate. }
  apply Flush_effect in Efl. destruct Efl as (C4 & _ & U4).
  intros H. apply deferred_close_effect in H. destruct H as (_ & C5 & D5 & U5).
  repeat split; [congruence | assumption|].
  eapply consumes_trans; [exact U1|].
  eapply consumes_trans; [exact U2|].
  eapply consumes_trans; [exact U3|].
  eapply consumes_trans; [exact U4 | exact U5].
Qed.

Lemma In_firstn {A : Type} (n : nat) (l : list A) (x : A) :
  In x (firstn n l) -> In x l.
Proof.
  intros H. rewrite <- (firstn_skipn n l). apply in_or_app. now left.
Qed.

(** X14. Every row that either writer hands to the sink has as many
    fields as the header of its report: seven for the files-by-owner report,
    eight for the external-sharing report, whatever the records and whatever
    fails. *)
Theorem report_rows_have_the_header_arity :
  forall (sort_Slice : forall A : Type, (A -> A -> bool) -> list A -> list A)
         (Format : time.Time -> string -> string)
         (FormatInt : Z -> Z -> string)
         (Join : string -> string -> string)
         (r : reporter.CSVReporter) (s : reporter.Sink),
    (forall records : list FileRecord,
        exists written : list (list string),
          reporter.rows
            (snd (reporter.WriteFilesByOwner sort_Slice Format FormatInt Join
                    r records s))
          = reporter.rows s ++ written /\
          Forall (fun row => List.length row = 7%nat) written) /\
    (forall records : list ExternalShareRecord,
        exists written : list (list string),
          reporter.rows
            (snd (reporter.WriteExternalSharing sort_Slice Format Join r records s))
          = reporter.rows s ++ written /\
          Forall (fun row => List.length row = 8%nat) written).
Proof.
  intros sort_Slice Format FormatInt Join r s. split.
  - intros records. unfold reporter.WriteFilesByOwner.
    match goal with
    | |- context [reporter.writeCSV ?p ?h ?f ?l s] =>
        destruct (reporter.writeCSV p h f l s) as [err s'] eqn:E;
        apply writeCSV_rows in E; destruct E as (written & Hrows & Hpre & _)
    end.
    exists written. split; [exact Hrows|].
    destruct Hpre as [-> | (k & ->)]; constructor; [reflexivity|].
    apply Forall_forall. intros row Hin. apply In_firstn in Hin.
    apply in_map_iff in Hin. destruct Hin as (rec & <- & _). reflexivity.
  - intros records. unfold reporter.WriteExternalSharing.
    match goal with
    | |- context [reporter.writeCSV ?p ?h ?f ?l s] =>
        destruct (reporter.writeCSV p h f l s) as [err s'] eqn:E;
        apply writeCSV_rows in E; destruct E as (written & Hrows & Hpre & _)
    end.
    exists written. split; [exact Hrows|].
    destruct Hpre as [-> | (k & ->)]; constructor; [reflexivity|].
    apply Forall_forall. intros row Hin. apply In_firstn in Hin.
    apply in_map_iff in Hin. destruct Hin as (rec & <- & _). reflexivity.
Qed.

(** X15. A writer reports success only when the report is complete: when
    it returns no error, the file was created under the report's name in the
    output directory, the header and one row per record were written, the
    file was closed, and no I/O operation on the way had failed — a failure
    of the final close included. *)
Theorem report_success_means_complete :
  forall (sort_Slice : forall A : Type, (A -> A -> bool) -> list A -> list A)
         (Format : time.Time -> string -> string)
         (FormatInt : Z -> Z -> string)
         (Join : string -> string -> string),
    reporter.sorts sort_Slice ->
    forall (r : reporter.CSVReporter) (s s' : reporter.Sink),
      (forall records : list FileRecord,
          reporter.WriteFilesByOwner sort_Slice Format FormatInt Join r records s
          = (None, s') ->
          reporter.created s'
          = reporter.created s ++ [Join (reporter.outputDir r) "files_by_owner.csv"] /\
          reporter.closed s' = true /\
          List.length (reporter.rows s')
          = (List.length (reporter.rows s) + 1 + List.length records)%nat /\
          consumes s s' None) /\
      (forall records : list ExternalShareRecord,
          reporter.WriteExternalSharing sort_Slice Format Join r records s
          = (None, s') ->
          reporter.created s'
          = reporter.created s ++ [Join (reporter.outputDir r) "external_sharing.csv"] /\
          reporter.closed s' = true /\
          List.length (reporter.rows s')
          = (List.length (reporter.rows s) + 1 + List.length records)%nat /\
          consumes s s' None).
Proof.
  intros sort_Slice Format FormatInt Join Hsort r s s'. split.
  - intros records H. unfold reporter.WriteFilesByOwner in H.
    destruct (Hsort FileRecord reporter.lessFileRecord records lessFileRecord_swo)
      as [Hperm _].
    pose proof (writeCSV_success _ _ _ _ _ _ H) as (C & D & U).
    apply writeCSV_rows in H. destruct H as (written & Hrows & _ & Hall & _).
    repeat split; try assumption.
    rewrite Hrows, (Hall eq_refl), length_app. cbn [List.length].
    rewrite length_map, <- (Permutation_length Hperm). lia.
  - intros records H. unfold reporter.WriteExternalSharing in H.
    destruct (Hsort ExternalShareRecord reporter.lessShareRecord records
                lessShareRecord_swo) as [Hperm _].
    pose proof (writeCSV_success _ _ _ _ _ _ H) as (C & D & U).
    apply writeCSV_rows in H. destruct H as (written & Hrows & _ & Hall & _).
    repeat split; try assumption.
    rewrite Hrows, (Hall eq_refl), length_app. cbn [List.length].
    rewrite length_map, <- (Permutation_length Hperm). lia.
Qed.

Lemma report_success_means_complete_witness :
  let records :=
    [mkFileRecord "bob@example.com" "3" "b.txt" "" time.zero time.zero 0;
     mkFileRecord "alice@example.com" "2" "a.txt" "" time.zero time.zero 0] in
  let Format := fun (_ : time.Time) (layout : string) => layout in
  let FormatInt := fun (_ _ : Z) => "0" in
  let Join := fun dir name : string => (dir ++ "/" ++ name)%string in
  let s := reporter.mkSink [] [] [] false in
  exists s' : reporter.Sink,
    reporter.WriteFilesByOwner reporter.insertion_sort Format FormatInt Join
      (reporter.mkCSVReporter "out") records s = (None, s') /\
    reporter.created s' = ["out/files_by_owner.csv"] /\
    reporter.closed s' = true /\
    List.length (reporter.rows s') = 3%nat.
Proof.
  intros records Format FormatInt Join s. eexists.
  match goal with
  | |- ?A /\ _ => assert (H : A) by (cbv; reflexivity)
  end.
  split; [exact H|].
  match type of H with
  | _ = (None, ?s1) =>
      destruct (report_success_means_complete reporter.insertion_sort Format
                  FormatInt Join insertion_sort_sorts
                  (reporter.mkCSVReporter "out") s s1) as [Hfiles _]
  end.
  destruct (Hfiles records H) as (C & D & L & _).
  repeat split; assumption.
Defined.

(** X16. How the writers report a failure.  When the file cannot be
    created, the error is [failed to create file: <cause>], nothing is
    written and no close is attempted.  When writing the header fails, the
    error is [failed to write header: <cause>] and no row is written; the
    file is still closed on the way out, and a failure of that close does
    not replace the error already found. *)
Theorem report_failure_is_the_first_one :
  forall (sort_Slice : forall A : Type, (A -> A -> bool) -> list A -> list A)
         (Format : time.Time -> string -> string)
         (FormatInt : Z -> Z -> string)
         (Join : string -> string -> string)
         (r : reporter.CSVReporter)
         (e : error) (closing : option error) (rest : list (option error))
         (created : list string) (rows : list (list string)) (closed : bool),
    (forall records : list FileRecord,
        reporter.WriteFilesByOwner sort_Slice Format FormatInt Join r records
          (reporter.mkSink (Some e :: rest) created rows closed)
        = (Some (Wrapped "failed to create file" e),
           reporter.mkSink rest created rows closed) /\
        reporter.WriteFilesByOwner sort_Slice Format FormatInt Join r records
          (reporter.mkSink (None :: Some e :: closing :: rest) created rows closed)
        = (Some (Wrapped "failed to write header" e),
           reporter.mkSink rest
             (created ++ [Join (reporter.outputDir r) "files_by_owner.csv"])
             rows
             (match closing with None => true | Some _ => closed end))) /\
    (forall records : list ExternalShareRecord,
        reporter.WriteExternalSharing sort_Slice Format Join r records
          (reporter.mkSink (Some e :: rest) created rows closed)
        = (Some (Wrapped "failed to create file" e),
           reporter.mkSink rest created rows closed) /\
        reporter.WriteExternalSharing sort_Slice Format Join r records
          (reporter.mkSink (None :: Some e :: closing :: rest) created rows closed)
        = (Some (Wrapped "failed to write header" e),
           reporter.mkSink rest
             (created ++ [Join (reporter.outputDir r) "external_sharing.csv"])
             rows
             (match closing with None => true | Some _ => closed end))).
Proof.
  intros. split; intros records; split;
    try reflexivity; destruct closing; reflexivity.
Qed.

(** ** From the audits to the reports *)

(** X17. Whatever the external-sharing audit returns, complete or
    partial, the external-sharing report written from it has an empty
    [shared_date] column in every row after the header: the records of the
    audit carry the zero time, which is written as the empty string. *)
Theorem shared_date_column_is_always_empty :
  forall (W : Type) (API : DriveAPI W) (CTX : api.Context W)
         (sort_Slice : forall A : Type, (A -> A -> bool) -> list A -> list A)
         (Format : time.Time -> string -> string)
         (Join : string -> string -> string),
    reporter.sorts sort_Slice ->
    forall (fuel : nat) (a : Auditor) (w w' : W) (res : AuditResult)
           (e : option error) (r : reporter.CSVReporter)
           (s s' : reporter.Sink) (err : option error),
      AuditExternalSharing fuel a w = Some ((Some res, e), w') ->
      reporter.WriteExternalSharing sort_Slice Format Join r (ExternalShares res) s
      = (err, s') ->
      exists written : list (list string),
        reporter.rows s' = reporter.rows s ++ written /\
        (written = [] \/
         exists body : list (list string),
           written = reporter.sharingHeader :: body /\
           Forall (fun row => reporter.column 7 row = "") body).
Proof.
  intros W API CTX sort_Slice Format Join Hsort fuel a w w' res e r s s' err
    Haudit Hwrite.
  destruct (AuditExternalSharing_shares fuel a w w' res e Haudit)
    as (files & w1 & _ & Hmade).
  unfold reporter.WriteExternalSharing in Hwrite.
  destruct (Hsort ExternalShareRecord reporter.lessShareRecord
              (ExternalShares res) lessShareRecord_swo) as [Hperm _].
  apply writeCSV_rows in Hwrite.
  destruct Hwrite as (written & Hrows & Hpre & _).
  exists written. split; [exact Hrows|].
  destruct Hpre as [-> | (k & ->)]; [now left | right].
  eexists. split; [reflexivity|].
  apply Forall_forall. intros row Hin. apply In_firstn in Hin.
  apply in_map_iff in Hin. destruct Hin as (rec & <- & Hrec).
  apply (Permutation_in _ (Permutation_sym Hperm)) in Hrec.
  rewrite Forall_forall in Hmade.
  destruct (Hmade rec Hrec) as (f & p & _ & _ & ->). reflexivity.
Qed.

Lemma shared_date_column_is_always_empty_witness :
  let Format := fun (_ : time.Time) (layout : string) => layout in
  let Join := fun dir name : string => (dir ++ "/" ++ name)%string in
  let s := reporter.mkSink [] [] [] false in
  exists (res : AuditResult) (w' : mock.World) (s' : reporter.Sink),
    AuditExternalSharing 2 example.a example.world = Some ((Some res, None), w') /\
    reporter.WriteExternalSharing reporter.insertion_sort Format Join
      (reporter.mkCSVReporter "out") (ExternalShares res) s = (None, s') /\
    map (reporter.column 7) (reporter.rows s') = ["shared_date"; ""; ""] /\
    exists written : list (list string),
      reporter.rows s' = reporter.rows s ++ written /\
      (written = [] \/
       exists body : list (list string),
         written = reporter.sharingHeader :: body /\
         Forall (fun row => reporter.column 7 row = "") body).
Proof.
  intros Format Join s. do 3 eexists.
  match goal with
  | |- ?A /\ ?B /\ _ =>
      assert (H1 : A) by (cbv; reflexivity);
      assert (H2 : B) by (cbv; reflexivity)
  end.
  split; [exact H1|]. split; [exact H2|]. split; [reflexivity|].
  exact (shared_date_column_is_always_empty mock.World _ _
           reporter.insertion_sort Format Join insertion_sort_sorts
           _ _ _ _ _ _ _ _ _ _ H1 H2).
Defined.

(** X18. The timestamp columns of the files-by-owner report: when
    [time.Parse] hands back the zero time together with its error, as it
    does for a timestamp it cannot parse, the created (respectively
    modified) column of the row of that file is empty; a parsed time that is
    not the zero time is written in the layout [2006-01-02T15:04:05Z].  The
    other columns are the owner, ID, name and type of the file and its size
    in base 10. *)
Theorem unparsable_timestamps_give_empty_columns :
  forall (Parse : string -> string -> time.Time * option error)
         (Format : time.Time -> string -> string)
         (FormatInt : Z -> Z -> string),
    (forall (layout value : string) (t : time.Time) (err : error),
        Parse layout value = (t, Some err) -> t = time.zero) ->
    forall f : FileInfo,
      let row :=
        reporter.fileRow Format FormatInt (auditor.fileInfoToRecord Parse f) in
      (snd (Parse auditor.RFC3339 (drive.CreatedTime f)) <> None ->
       reporter.column 4 row = "") /\
      (snd (Parse auditor.RFC3339 (drive.ModifiedTime f)) <> None ->
       reporter.column 5 row = "") /\
      (time.IsZero (fst (Parse auditor.RFC3339 (drive.CreatedTime f))) = false ->
       reporter.column 4 row
       = Format (fst (Parse auditor.RFC3339 (drive.CreatedTime f)))
           "2006-01-02T15:04:05Z") /\
      (time.IsZero (fst (Parse auditor.RFC3339 (drive.ModifiedTime f))) = false ->
       reporter.column 5 row
       = Format (fst (Parse auditor.RFC3339 (drive.ModifiedTime f)))
           "2006-01-02T15:04:05Z") /\
      row = [drive.OwnerEmail f; ID f; Name f; MimeType f;
             reporter.column 4 row; reporter.column 5 row;
             FormatInt (Size f) 10].
Proof.
  intros Parse Format FormatInt Hzero f row. subst row.
  unfold reporter.fileRow, auditor.fileInfoToRecord, reporter.column.
  cbn [fr_OwnerEmail fr_FileID fr_FileName fr_FileType fr_CreatedTime
       fr_ModifiedTime fr_SizeBytes nth].
  split; [|split; [|split; [|split]]].
  - destruct (Parse auditor.RFC3339 (drive.CreatedTime f)) as [t [err|]] eqn:E;
      cbn [fst snd]; intros H; [|congruence].
    now rewrite (Hzero _ _ _ _ E).
  - destruct (Parse auditor.RFC3339 (drive.ModifiedTime f)) as [t [err|]] eqn:E;
      cbn [fst snd]; intros H; [|congruence].
    now rewrite (Hzero _ _ _ _ E).
  - intros ->. reflexivity.
  - intros ->. reflexivity.
  - reflexivity.
Qed.

Lemma unparsable_timestamps_give_empty_columns_witness :
  let Parse := fun (_ value : string) =>
    if String.eqb value "2025-01-01T00:00:00Z"
    then (time.mkTime 63871286400 0, None)
    else (time.zero, Some (ErrorString "parsing time: cannot parse")) in
  let Format := fun (_ : time.Time) (layout : string) => layout in
  let FormatInt := fun (_ _ : Z) => "10" in
  reporter.fileRow Format FormatInt
    (auditor.fileInfoToRecord Parse
       (mkFileInfo "f" "n" "t" "o@example.com" "2025-01-01T00:00:00Z" "yesterday" 10))
  = ["o@example.com"; "f"; "n"; "t"; "2006-01-02T15:04:05Z"; ""; "10"].
Proof.
  intros Parse Format FormatInt.
  assert (Hzero : forall (layout value : string) (t : time.Time) (err : error),
             Parse layout value = (t, Some err) -> t = time.zero).
  { intros layout value t err. unfold Parse.
    destruct (String.eqb value "2025-01-01T00:00:00Z"); intros H;
      inversion H; reflexivity. }
  destruct (unparsable_timestamps_give_empty_columns Parse Format FormatInt Hzero
              (mkFileInfo "f" "n" "t" "o@example.com" "2025-01-01T00:00:00Z"
                 "yesterday" 10))
    as (_ & Hm & Hc & _ & Hrow).
  rewrite Hrow, Hc by reflexivity. rewrite Hm by discriminate. reflexivity.
Defined.

(** X19. The comparisons that the two writers hand to [sort.Slice] are
    strict weak orderings, as [sort.Slice] requires, and two records are tied
    under them exactly when they have the same owner email and the same file
    name. *)
Theorem report_comparisons_are_strict_weak_orderings :
  reporter.strict_weak_order reporter.lessFileRecord /\
  reporter.strict_weak_order reporter.lessShareRecord /\
  (forall a b : FileRecord,
      (reporter.lessFileRecord a b = false /\ reporter.lessFileRecord b a = false)
      <-> (fr_OwnerEmail a = fr_OwnerEmail b /\ fr_FileName a = fr_FileName b)) /\
  (forall a b : ExternalShareRecord,
      (reporter.lessShareRecord a b = false /\ reporter.lessShareRecord b a = false)
      <-> (OwnerEmail a = OwnerEmail b /\ FileName a = FileName b)).
Proof.
  assert (Htie : forall k1 k2 : string * string,
             (key_lt k1 k2 = false /\ key_lt k2 k1 = false) <-> k1 = k2).
  { intros k1 k2. split.
    - intros [H1 H2]. now apply key_lt_incomparable.
    - intros ->. destruct key_lt_strict_weak_order as (Hirr & _). auto. }
  split; [exact lessFileRecord_swo|]. split; [exact lessShareRecord_swo|]. split.
  - intros a b. change (reporter.lessFileRecord a b) with (key_lt (fileKey a) (fileKey b)).
    change (reporter.lessFileRecord b a) with (key_lt (fileKey b) (fileKey a)).
    rewrite Htie. unfold fileKey. split; [intros H; now inversion H|].
    intros [-> ->]. reflexivity.
  - intros a b. change (reporter.lessShareRecord a b) with (key_lt (shareKey a) (shareKey b)).
    change (reporter.lessShareRecord b a) with (key_lt (shareKey b) (shareKey a)).
    rewrite Htie. unfold shareKey. split; [intros H; now inversion H|].
    intros [-> ->]. reflexivity.
Qed.

(** ** Configuration *)

Lemma Index_at_contains (s : string) :
  forall i : Z, 0 <= i ->
    (0 <=? strings.Index_at i s "@") = contains_byte "@" s.
Proof.
  induction s as [|c s IH]; intros i Hi.
  - reflexivity.
  - cbn [strings.Index_at contains_byte]. rewrite prefix_at_head.
    destruct (Ascii.eqb c "@"); cbn [orb].
    + now apply Z.leb_le.
    + apply IH. lia.
Qed.

Lemma Contains_at (s : string) :
  strings.Contains s "@" = contains_byte "@" s.
Proof. unfold strings.Contains, strings.Index. now apply Index_at_contains. Qed.

Lemma isValidFormat_spec (format : string) :
  config.isValidFormat format
  = String.eqb format "csv" || String.eqb format "json".
Proof.
  unfold config.isValidFormat, config.ValidOutputFormats.
  cbn [config.isValidFormat_range].
  rewrite (String.eqb_sym "csv" format), (String.eqb_sym "json" format).
  destruct (String.eqb format "csv"), (String.eqb format "json"); reflexivity.
Qed.

Lemma page_size_check (n : Z) :
  (n <? 1) || (n >? 1000) = negb ((1 <=? n) && (n <=? 1000)).
Proof.
  rewrite Z.gtb_ltb, (Z.ltb_antisym 1 n), (Z.ltb_antisym n 1000).
  now rewrite negb_andb.
Qed.

(** The errors that [Validate] joins are as many as the requirements
    violated. *)
Lemma Validate_counts (IsNotExist : string -> bool) (c : config.Config) :
  match config.Validate IsNotExist c with
  | None => violations IsNotExist c = 0%nat
  | Some j =>
      List.length (config.joined j) = violations IsNotExist c /\
      (1 <= violations IsNotExist c)%nat
  end.
Proof.
  unfold config.Validate, violations.
  rewrite Contains_at, isValidFormat_spec, page_size_check.
  destruct (String.eqb (config.ServiceAccountFile (config.Google c)) "");
    [|destruct (IsNotExist (config.ServiceAccountFile (config.Google c)))];
    (destruct (String.eqb (config.AdminEmail (config.Google c)) "") eqn:E2;
     [apply String.eqb_eq in E2; rewrite E2
     |destruct (contains_byte "@" (config.AdminEmail (config.Google c)))]);
    destruct (String.eqb (config.Domain (config.Google c)) "");
    destruct ((1 <=? config.PageSize (config.Audit c))
              && (config.PageSize (config.Audit c) <=? 1000));
    destruct (String.eqb (config.Format (config.Output c)) "csv"
              || String.eqb (config.Format (config.Output c)) "json");
    cbn; try reflexivity; split; (reflexivity || lia).
Qed.

Lemma validate_accepts_exactly_the_valid_configurations_aux :
  forall (IsNotExist : string -> bool) (c : config.Config),
    config.Validate IsNotExist c = None <->
    (config.ServiceAccountFile (config.Google c) <> "" /\
     IsNotExist (config.ServiceAccountFile (config.Google c)) = false /\
     contains_byte "@" (config.AdminEmail (config.Google c)) = true /\
     config.Domain (config.Google c) <> "" /\
     1 <= config.PageSize (config.Audit c) <= 1000 /\
     (config.Format (config.Output c) = "csv" \/
      config.Format (config.Output c) = "json")).
Proof.
  intros IsNotExist c.
  assert (Hzero : config.Validate IsNotExist c = None
                  <-> violations IsNotExist c = 0%nat).
  { pose proof (Validate_counts IsNotExist c) as H.
    destruct (config.Validate IsNotExist c) as [j|].
    - split; [discriminate | lia].
    - tauto. }
  rewrite Hzero. unfold violations.
  destruct (String.eqb (config.ServiceAccountFile (config.Google c)) "") eqn:E1;
    [apply String.eqb_eq in E1 | apply String.eqb_neq in E1];
    destruct (IsNotExist (config.ServiceAccountFile (config.Google c))) eqn:E1';
    destruct (contains_byte "@" (config.AdminEmail (config.Google c))) eqn:E2;
    (destruct (String.eqb (config.Domain (config.Google c)) "") eqn:E3;
     [apply String.eqb_eq in E3 | apply String.eqb_neq in E3]);
    (destruct ((1 <=? config.PageSize (config.Audit c))
               && (config.PageSize (config.Audit c) <=? 1000)) eqn:E4;
     [apply andb_true_iff in E4; rewrite !Z.leb_le in E4
     |apply andb_false_iff in E4; rewrite !Z.leb_gt in E4]);
    (destruct (String.eqb (config.Format (config.Output c)) "csv") eqn:E5;
     [apply String.eqb_eq in E5 | apply String.eqb_neq in E5]);
    (destruct (String.eqb (config.Format (config.Output c)) "json") eqn:E6;
     [apply String.eqb_eq in E6 | apply String.eqb_neq in E6]);
    cbn; split; try discriminate; try tauto;
    try (intros (H1 & H2 & H3 & H4 & H5 & H6); try congruence; try lia;
         destruct H6; congruence).
Qed.

(** X20. [Validate] accepts a configuration exactly when the service
    account file is named and is not reported missing, the admin email
    contains an [@], the domain is not empty, the page size is between 1 and
    1000, and the output format is [csv] or [json] in exactly that
    spelling. *)
Theorem validate_accepts_exactly_the_valid_configurations :
  forall (IsNotExist : string -> bool) (c : config.Config),
    config.Validate IsNotExist c = None <->
    (config.ServiceAccountFile (config.Google c) <> "" /\
     IsNotExist (config.ServiceAccountFile (config.Google c)) = false /\
     contains_byte "@" (config.AdminEmail (config.Google c)) = true /\
     config.Domain (config.Google c) <> "" /\
     1 <= config.PageSize (config.Audit c) <= 1000 /\
     (config.Format (config.Output c) = "csv" \/
      config.Format (config.Output c) = "json")).
Proof. exact validate_accepts_exactly_the_valid_configurations_aux. Qed.

(** X21. [Validate] does not stop at the first problem: the error it
    returns joins exactly one error for each requirement that the
    configuration violates, between one and five. *)
Theorem validate_reports_every_violation :
  forall (IsNotExist : string -> bool) (c : config.Config) (j : config.joinError),
    config.Validate IsNotExist c = Some j ->
    List.length (config.joined j) = violations IsNotExist c /\
    (1 <= List.length (config.joined j) <= 5)%nat.
Proof.
  intros IsNotExist c j H.
  pose proof (Validate_counts IsNotExist c) as Hc. rewrite H in Hc.
  destruct Hc as [Hlen Hpos]. split; [exact Hlen|]. rewrite Hlen.
  split; [exact Hpos|]. unfold violations.
  repeat match goal with
         | |- context [if ?b then _ else _] => destruct b
         end; lia.
Qed.

(** The configuration of the test case [multiple validation errors]. *)
Lemma validate_reports_every_violation_witness :
  let c := config.mkConfig (config.mkGoogleConfig "" "" "")
             (config.mkAuditConfig true 0) (config.mkOutputConfig "xml" "./output") in
  exists j : config.joinError,
    config.Validate (fun _ => false) c = Some j /\
    List.length (config.joined j) = 5%nat.
Proof.
  intros c. eexists.
  match goal with
  | |- ?A /\ _ => assert (H : A) by reflexivity
  end.
  split; [exact H|].
  destruct (validate_reports_every_violation _ _ _ H) as [Hlen _].
  rewrite Hlen. reflexivity.
Defined.

Lemma settings_bound_page_sizes (c : Client) (lo hi : Z) (evs : list mock.Event) :
  lo <= pageSize c <= hi ->
  forallb (observe.uses_settings c) evs = true ->
  observe.page_sizes_within lo hi evs = true.
Proof.
  intros Hb. unfold observe.page_sizes_within.
  induction evs as [|ev evs IH]; [reflexivity|]. cbn [forallb]. intros H.
  apply andb_true_iff in H. destruct H as [Hev Hevs].
  rewrite (IH Hevs), andb_true_r.
  destruct ev as [|opts|fileID opts]; try reflexivity.
  cbn in Hev. repeat (apply andb_true_iff in Hev; destruct Hev as [Hev ?]).
  match goal with
  | H : (_ =? _) = true |- _ => apply Z.eqb_eq in H; rewrite H
  end.
  apply andb_true_iff. split; apply Z.leb_le; lia.
Qed.

(** X22. A configuration that [Validate] accepts passes the checks of
    [NewAuthenticator], so that [NewAuditor] can fail only in creating the
    drive service.  The auditor it builds has a client with the configured,
    non-empty domain and a page size between 1 and 1000: every file-listing
    request of its sharing audit asks for a page size in that range (on the
    scripted double), and a permission of type [domain] with an empty domain
    is classified as external. *)
Theorem validated_configuration_gives_a_sound_auditor :
  forall (IsNotExist : string -> bool)
         (GetDriveService : auth.Authenticator -> option error)
         (cfg : config.Config),
    config.Validate IsNotExist cfg = None ->
    (exists authenticator : auth.Authenticator,
        auth.NewAuthenticator (config.ServiceAccountFile (config.Google cfg))
          (config.AdminEmail (config.Google cfg)) = inl authenticator) /\
    (forall err : error,
        auditor.NewAuditor GetDriveService cfg = inr err ->
        exists cause : error,
          err = Wrapped "failed to create drive service" cause) /\
    (forall a : Auditor,
        auditor.NewAuditor GetDriveService cfg = inl a ->
        domain (driveClient a) = config.Domain (config.Google cfg) /\
        domain (driveClient a) <> "" /\
        1 <= pageSize (driveClient a) <= 1000 /\
        (forall perm : drive.Permission,
            Type_ perm = "domain" -> Domain perm = "" ->
            IsExternalShare (driveClient a) perm = true) /\
        (forall (fuel : nat) (w w' : mock.World) res,
            AuditExternalSharing fuel a w = Some (res, w') ->
            exists evs : list mock.Event,
              mock.log w' = mock.log w ++ evs /\
              observe.page_sizes_within 1 1000 evs = true)).
Proof.
  intros IsNotExist GetDriveService cfg Hvalid.
  apply validate_accepts_exactly_the_valid_configurations_aux in Hvalid.
  destruct Hvalid as (Hsaf & _ & Hemail & Hdom & Hps & _).
  assert (Hemail' : config.AdminEmail (config.Google cfg) <> "").
  { intros E. rewrite E in Hemail. discriminate. }
  assert (Hauth : auth.NewAuthenticator
                    (config.ServiceAccountFile (config.Google cfg))
                    (config.AdminEmail (config.Google cfg))
                  = inl (auth.mkAuthenticator
                           (config.ServiceAccountFile (config.Google cfg))
                           (config.AdminEmail (config.Google cfg)))).
  { unfold auth.NewAuthenticator.
    apply String.eqb_neq in Hsaf, Hemail'. now rewrite Hsaf, Hemail'. }
  split; [eauto|]. split.
  - intros err H. unfold auditor.NewAuditor in H. rewrite Hauth in H.
    destruct (GetDriveService _) as [cause|]; [|discriminate].
    injection H as <-. eauto.
  - intros a H. unfold auditor.NewAuditor in H. rewrite Hauth in H.
    destruct (GetDriveService _) as [cause|]; [discriminate|].
    injection H as <-. cbn [driveClient auditor.NewClient domain pageSize].
    split; [reflexivity|]. split; [assumption|]. split; [assumption|]. split.
    + intros perm Htype Hd. rewrite (IsExternalShare_domain _ perm Htype).
      apply str_ne_true. rewrite Hd. simpl. intros E. apply Hdom.
      symmetry. exact E.
    + intros fuel w w' res Hrun.
      apply sharing_audit_uses_settings in Hrun.
      destruct Hrun as (evs & Hlog & Huse). exists evs. split; [exact Hlog|].
      eapply settings_bound_page_sizes; [|exact Huse]. exact Hps.
Qed.

Lemma validated_configuration_gives_a_sound_auditor_witness :
  let cfg := config.mkConfig
               (config.mkGoogleConfig "/etc/gwork/sa.json" "admin@example.com"
                  "example.com")
               (config.Audit config.NewDefault) (config.Output config.NewDefault) in
  config.Validate (fun _ => false) cfg = None /\
  exists a : Auditor,
    auditor.NewAuditor (fun _ => None) cfg = inl a /\
    domain (driveClient a) = "example.com" /\
    1 <= pageSize (driveClient a) <= 1000.
Proof.
  intros cfg.
  assert (Hvalid : config.Validate (fun _ => false) cfg = None) by reflexivity.
  split; [exact Hvalid|].
  destruct (validated_configuration_gives_a_sound_auditor
              (fun _ => false) (fun _ => None) cfg Hvalid) as (_ & _ & Hgood).
  eexists. split; [reflexivity|].
  destruct (Hgood _ eq_refl) as (Hd & _ & Hps & _).
  split; [exact Hd | exact Hps].
Defined.

(** X23. The default configuration lacks exactly the three Google
    settings — [Validate] rejects it with those three errors, in the order
    service account file, admin email, domain — and becomes valid as soon as
    they are supplied: a service account file that exists, an admin email
    with an [@], and a domain. *)
Theorem default_configuration_needs_only_the_google_settings :
  forall (IsNotExist : string -> bool),
    config.Validate IsNotExist config.NewDefault
    = Some (config.mkJoinError
              [ErrorString "google.service_account_file is required";
               ErrorString "google.admin_email is required for domain-wide delegation";
               ErrorString "google.domain is required"]) /\
    (forall saf email domain : string,
        saf <> "" ->
        IsNotExist saf = false ->
        contains_byte "@" email = true ->
        domain <> "" ->
        config.Validate IsNotExist
          (config.mkConfig (config.mkGoogleConfig saf email domain)
             (config.Audit config.NewDefault) (config.Output config.NewDefault))
        = None).
Proof.
  intros IsNotExist. split; [reflexivity|].
  intros saf email domain Hsaf Hexists Hemail Hdomain.
  apply validate_accepts_exactly_the_valid_configurations_aux.
  cbn [config.Google config.Audit config.Output config.ServiceAccountFile
       config.AdminEmail config.Domain config.PageSize config.Format
       config.NewDefault].
  unfold config.DefaultPageSize, config.DefaultOutputFormat.
  split; [assumption|]. split; [assumption|]. split; [assumption|].
  split; [assumption|]. split; [lia | now left].
Qed.
